(** * A live HLS publisher: shallow embedding of [hls.go]

    The publisher packages a stream of packets into a sliding window of
    segments.  Segments are heap objects shared by pointer between the
    publisher, its precreate queue and the published snapshot, so the
    model keeps an explicit store of segments and lists of pointers. *)

From Stdlib Require Import ZArith Lia String Ascii DecimalString.
From stdpp Require Import base numbers list sets.

Local Open Scope Z_scope.

(** ** Go's [int64] and [time.Duration] *)

Definition min_int64 : Z := - 2 ^ 63.
Definition max_int64 : Z := 2 ^ 63 - 1.

(** Two's complement wrap-around of signed 64-bit arithmetic. *)
Definition wrap64 (z : Z) : Z := (z + 2 ^ 63) mod 2 ^ 64 - 2 ^ 63.

Definition add64 (a b : Z) : Z := wrap64 (a + b).
Definition sub64 (a b : Z) : Z := wrap64 (a - b).
(** Go's [/] truncates toward zero. *)
Definition quot64 (a b : Z) : Z := wrap64 (Z.quot a b).
(** [uint64(x)] of a signed value. *)
Definition to_uint64 (x : Z) : Z := x mod 2 ^ 64.

Definition Second : Z := 1000000000.
Definition minDuration : Z := min_int64.
Definition maxDuration : Z := max_int64.

(** [time.lessThanHalf]: [uint64(x)+uint64(x) < uint64(y)]. *)
Definition lessThanHalf (x y : Z) : bool :=
  (to_uint64 x + to_uint64 x) mod 2 ^ 64 <? to_uint64 y.

(** [time.Duration.Round]: nearest multiple of [m], halves away from zero,
    saturating at the extreme durations. *)
Definition Duration_Round (d m : Z) : Z :=
  if m <=? 0 then d
  else
    let r := Z.rem d m in
    if d <? 0 then
      let r := wrap64 (- r) in
      if lessThanHalf r m then add64 d r
      else
        let d1 := wrap64 (d - m + r) in
        if d1 <? d then d1 else minDuration
    else
      if lessThanHalf r m then sub64 d r
      else
        let d1 := wrap64 (d + m - r) in
        if d1 >? d then d1 else maxDuration.

(** ** Go's [path.Base] *)

Definition is_slash (c : ascii) : bool := Ascii.eqb c "/"%char.

(** The loop [for len(path) > 0 && path[len(path)-1] == '/'] that strips
    trailing slashes. *)
Fixpoint strip_trailing_slashes (s : string) : string :=
  match s with
  | EmptyString => EmptyString
  | String c rest =>
      match strip_trailing_slashes rest with
      | EmptyString => if is_slash c then EmptyString else String c EmptyString
      | r => String c r
      end
  end.

Fixpoint has_slash (s : string) : bool :=
  match s with
  | EmptyString => false
  | String c rest => is_slash c || has_slash rest
  end.

(** [path[lastSlash(path)+1:]], the whole path when it has no slash. *)
Fixpoint after_last_slash (s : string) : string :=
  match s with
  | EmptyString => EmptyString
  | String c rest =>
      if has_slash rest then after_last_slash rest
      else if is_slash c then rest
      else String c rest
  end.

Definition path_Base (path : string) : string :=
  match path with
  | EmptyString => "."%string
  | _ =>
      let path := after_last_slash (strip_trailing_slashes path) in
      match path with
      | EmptyString => "/"%string
      | _ => path
      end
  end.

(** ** Segments *)

(** Life cycle of a segment, as the specification names it. *)
Inductive lifecycle := Created | Active | Finalized | Released.

Module Seg.
(** Modelled from the spec: the [segment] type lives in a file that is not
    part of the sources at hand.  [hls.go] reads the fields [name], [dur]
    and [dcn]; the identity, start time, provisional target duration,
    header bytes, appended payload and life cycle follow the data model
    of the specification. *)
Record segment := mk {
  num : Z;
  name : string;
  start : Z;
  tdur : Z;
  dur : Z;
  dcn : bool;
  hdr : string;
  body : string;
  life : lifecycle
}.
End Seg.

Abbreviation segment := Seg.segment.

(** The zero value of the struct, read through a pointer the store does not
    hold (no reachable state has one). *)
Definition zero_segment : segment :=
  Seg.mk 0 "" 0 0 0 false "" "" Created.

(** Pointers to segments are indices into the store. *)
Abbreviation ptr := nat (only parsing).
Abbreviation heap := (list segment) (only parsing).

Definition deref (h : heap) (c : ptr) : segment := default zero_segment (h !! c).

(** Modelled from the spec: [segment.activate(start, initialDur, dcn)] assigns
    the start time, the provisional target duration and the discontinuity
    flag, and makes the segment Active. *)
Definition activate (start initialDur : Z) (dcn : bool) (s : segment) : segment :=
  Seg.mk (Seg.num s) (Seg.name s) start initialDur (Seg.dur s) dcn
         (Seg.hdr s) (Seg.body s) Active.

(** Modelled from the spec: [segment.Finalize(nextStart)] fixes the duration to
    the next segment's start time minus this segment's start time. *)
Definition Finalize (nextStart : Z) (s : segment) : segment :=
  Seg.mk (Seg.num s) (Seg.name s) (Seg.start s) (Seg.tdur s)
         (sub64 nextStart (Seg.start s)) (Seg.dcn s)
         (Seg.hdr s) (Seg.body s) Finalized.

(** Modelled from the spec: [segment.Release()] frees the payload storage.
    The life cycle state stands for the freed storage; [hdr] and [body] keep
    recording what the segment was built from. *)
Definition Release (s : segment) : segment :=
  Seg.mk (Seg.num s) (Seg.name s) (Seg.start s) (Seg.tdur s) (Seg.dur s)
         (Seg.dcn s) (Seg.hdr s) (Seg.body s) Released.

(** Modelled from the spec: a successful [segment.Write(b)] appends [b] to the
    payload. *)
Definition seg_Write (b : string) (s : segment) : segment :=
  Seg.mk (Seg.num s) (Seg.name s) (Seg.start s) (Seg.tdur s) (Seg.dur s)
         (Seg.dcn s) (Seg.hdr s) (Seg.body s ++ b) (Seg.life s).

(** ** Publisher state *)

Module St.
(** [hlsState]: the snapshot handed to readers. *)
Record hlsState := mk { playlist : string; segments : list ptr }.
End St.

Abbreviation hlsState := St.hlsState.

Module Pub.
(** [mux] records whether the muxer pointer is non-nil; [state] is [None]
    while the [atomic.Value] has never been stored to. *)
Record Publisher := mk {
  InitialDuration : Z;
  BufferLength : Z;
  WorkDir : string;
  Prefetch : bool;
  Precreate : Z;
  segments : list ptr;
  presegs : list ptr;
  segNum : Z;
  seq : Z;
  dcn : bool;
  dcnseq : Z;
  state : option hlsState;
  current : option ptr;
  muxBuf : string;
  mux : bool;
  muxHdr : string
}.

Definition with_segments (v : list ptr) (p : Publisher) : Publisher :=
  mk (InitialDuration p) (BufferLength p) (WorkDir p) (Prefetch p) (Precreate p)
     v (presegs p) (segNum p) (seq p) (dcn p) (dcnseq p) (state p)
     (current p) (muxBuf p) (mux p) (muxHdr p).
Definition with_presegs (v : list ptr) (p : Publisher) : Publisher :=
  mk (InitialDuration p) (BufferLength p) (WorkDir p) (Prefetch p) (Precreate p)
     (segments p) v (segNum p) (seq p) (dcn p) (dcnseq p) (state p)
     (current p) (muxBuf p) (mux p) (muxHdr p).
Definition with_segNum (v : Z) (p : Publisher) : Publisher :=
  mk (InitialDuration p) (BufferLength p) (WorkDir p) (Prefetch p) (Precreate p)
     (segments p) (presegs p) v (seq p) (dcn p) (dcnseq p) (state p)
     (current p) (muxBuf p) (mux p) (muxHdr p).
Definition with_seq (v : Z) (p : Publisher) : Publisher :=
  mk (InitialDuration p) (BufferLength p) (WorkDir p) (Prefetch p) (Precreate p)
     (segments p) (presegs p) (segNum p) v (dcn p) (dcnseq p) (state p)
     (current p) (muxBuf p) (mux p) (muxHdr p).
Definition with_dcn (v : bool) (p : Publisher) : Publisher :=
  mk (InitialDuration p) (BufferLength p) (WorkDir p) (Prefetch p) (Precreate p)
     (segments p) (presegs p) (segNum p) (seq p) v (dcnseq p) (state p)
     (current p) (muxBuf p) (mux p) (muxHdr p).
Definition with_dcnseq (v : Z) (p : Publisher) : Publisher :=
  mk (InitialDuration p) (BufferLength p) (WorkDir p) (Prefetch p) (Precreate p)
     (segments p) (presegs p) (segNum p) (seq p) (dcn p) v (state p)
     (current p) (muxBuf p) (mux p) (muxHdr p).
Definition with_state (v : option hlsState) (p : Publisher) : Publisher :=
  mk (InitialDuration p) (BufferLength p) (WorkDir p) (Prefetch p) (Precreate p)
     (segments p) (presegs p) (segNum p) (seq p) (dcn p) (dcnseq p) v
     (current p) (muxBuf p) (mux p) (muxHdr p).
Definition with_current (v : option ptr) (p : Publisher) : Publisher :=
  mk (InitialDuration p) (BufferLength p) (WorkDir p) (Prefetch p) (Precreate p)
     (segments p) (presegs p) (segNum p) (seq p) (dcn p) (dcnseq p) (state p)
     v (muxBuf p) (mux p) (muxHdr p).
Definition with_muxBuf (v : string) (p : Publisher) : Publisher :=
  mk (InitialDuration p) (BufferLength p) (WorkDir p) (Prefetch p) (Precreate p)
     (segments p) (presegs p) (segNum p) (seq p) (dcn p) (dcnseq p) (state p)
     (current p) v (mux p) (muxHdr p).
Definition with_mux (v : bool) (p : Publisher) : Publisher :=
  mk (InitialDuration p) (BufferLength p) (WorkDir p) (Prefetch p) (Precreate p)
     (segments p) (presegs p) (segNum p) (seq p) (dcn p) (dcnseq p) (state p)
     (current p) (muxBuf p) v (muxHdr p).
Definition with_muxHdr (v : string) (p : Publisher) : Publisher :=
  mk (InitialDuration p) (BufferLength p) (WorkDir p) (Prefetch p) (Precreate p)
     (segments p) (presegs p) (segNum p) (seq p) (dcn p) (dcnseq p) (state p)
     (current p) (muxBuf p) (mux p) v.
End Pub.

Abbreviation Publisher := Pub.Publisher.

(** A freshly declared publisher: the caller sets the exported fields, the
    rest are zero values. *)
Definition new_Publisher (initialDuration bufferLength : Z) (workDir : string)
    (prefetch : bool) (precreate : Z) : Publisher :=
  Pub.mk initialDuration bufferLength workDir prefetch precreate
         [] [] 0 0 false 0 None None "" false "".

(** ** Target duration and trimming *)

(** The [range p.segments] loop of [targetDuration]. *)
Definition max_dur (h : heap) (segs : list ptr) : Z :=
  foldl (fun maxTime c =>
           if Seg.dur (deref h c) >? maxTime then Seg.dur (deref h c) else maxTime)
        0 segs.

Definition targetDuration (p : Publisher) (h : heap) : Z :=
  let maxTime := max_dur h (Pub.segments p) in
  let maxTime := Duration_Round maxTime Second in
  let maxTime := if maxTime =? 0 then Pub.InitialDuration p else maxTime in
  let maxTime := if maxTime =? 0 then 5 * Second else maxTime in
  maxTime.

Definition goalLen (p : Publisher) : Z :=
  if Pub.BufferLength p =? 0 then 60 * Second else Pub.BufferLength p.

(** [keepSegments] as [trimSegments] computes it, with [int] 64 bits wide.
    The division is by the result of [targetDuration], which is never
    zero. *)
Definition keepSegments (p : Publisher) (segmentLen : Z) : Z :=
  let k := wrap64 (quot64 (wrap64 (wrap64 (goalLen p + segmentLen) - 1)) segmentLen + 1) in
  if k <? 10 then 10 else k.

(** One wrapping increment, [x++]. *)
Definition incr64 (x : Z) : Z := add64 x 1.

(** [seg.Release()] for each pointer of a list, in order. *)
Definition release_all (h : heap) (l : list ptr) : heap :=
  foldl (fun h c => alter Release c h) h l.

(** The pointers of a list, each with the discontinuity flag of its segment. *)
Definition with_flags (h : heap) (l : list ptr) : list (ptr * bool) :=
  (fun c => (c, Seg.dcn (deref h c))) <$> l.

(** How many entries of an eviction trace carry the discontinuity flag. *)
Definition dcn_count (log : list (ptr * bool)) : nat :=
  length (List.filter snd log).

(** The body of the eviction loop, for one evicted segment.  The third
    component records each evicted pointer with the discontinuity flag the
    loop read from it (a trace for the proofs; the code keeps none). *)
Definition evict_one (st : Publisher * heap * list (ptr * bool)) (c : ptr)
  : Publisher * heap * list (ptr * bool) :=
  let '(p, h, log) := st in
  let p := Pub.with_seq (incr64 (Pub.seq p)) p in
  let p := if Seg.dcn (deref h c)
           then Pub.with_dcnseq (incr64 (Pub.dcnseq p)) p else p in
  (p, alter Release c h, log ++ [(c, Seg.dcn (deref h c))]).

(** [Publisher.trimSegments(segmentLen)].  [len(p.segments) - keepSegments]
    cannot overflow: the length is not negative and [keepSegments] is at
    least 10. *)
Definition trimSegments (p : Publisher) (h : heap) (segmentLen : Z)
  : Publisher * heap * list (ptr * bool) :=
  let n := Z.of_nat (length (Pub.segments p)) - keepSegments p segmentLen in
  if n <=? 0 then (p, h, [])
  else
    let '(p, h, log) := foldl evict_one (p, h, []) (take (Z.to_nat n) (Pub.segments p)) in
    (Pub.with_segments (drop (Z.to_nat n) (Pub.segments p)) p, h, log).

(** ** Packets, collaborators and errors *)

(** [av.Packet]: the publisher reads [IsKeyFrame] and [Time]; the rest is
    the muxer's business. *)
Record Packet := mkPacket { IsKeyFrame : bool; Time : Z; Data : string }.

(** Where an error returned by the publisher came from. *)
Inductive error := ErrSegment | ErrMuxHeader | ErrMuxPacket | ErrSegWrite.

(** What the outside world answers during one call: the clock, whether the
    segment constructor succeeds for a given id, what the muxer writes into
    its buffer and whether it fails, whether the segment write succeeds. *)
Record Env := mkEnv {
  now : Z;
  alloc_ok : Z -> bool;
  mux_bytes : string;
  mux_ok : bool;
  write_ok : bool
}.

(** What one call reports: the publisher and store it leaves, the pointers
    it evicted from the window, and the returned error. *)
Record Result := mkResult {
  r_pub : Publisher;
  r_heap : heap;
  r_evicted : list (ptr * bool);
  r_err : option error
}.

(** What [ServeHTTP] answers: not found, the playlist with its content
    type, or whatever the matching segment's own [serveHTTP] sends. *)
Inductive response :=
| NotFound
| ServePlaylist (contentType body : string)
| ServeSegment (c : ptr).

(** The line feed that ends every playlist line. *)
Definition nl : string := String "010"%char EmptyString.

(** Parts of the absent segment file and of the Go run time that the
    publisher only passes values through: the resource name derived from a
    segment id, [segment.Format(prefetch)], the [%d] verb of [fmt] and
    [int(d.Seconds())]. *)
Class Externals := {
  segName : Z -> string;
  Format : bool -> segment -> string;
  fmtInt : Z -> string;
  intSeconds : Z -> Z
}.

Section Engine.

Context `{Externals}.

(** Modelled from the spec: the constructor [newSegment(num, hdr, workDir)]
    of the absent segment file returns a Created segment that holds only
    the muxed header bytes. *)
Definition mkSegment (num : Z) (hdr workDir : string) : segment :=
  Seg.mk num (segName num) 0 0 0 false hdr "" Created.

(** The playlist text of [newSegment], over the snapshot's segment list. *)
Definition build_playlist (p : Publisher) (h : heap) (initialDur : Z)
    (segs : list ptr) : string :=
  let b := ("#EXTM3U" ++ nl ++ "#EXT-X-VERSION:3" ++ nl
            ++ "#EXT-X-TARGETDURATION:" ++ fmtInt (intSeconds initialDur) ++ nl)%string in
  let b := (b ++ "#EXT-X-MEDIA-SEQUENCE:" ++ fmtInt (Pub.seq p) ++ nl)%string in
  let b := if Pub.dcnseq p =? 0 then b
           else (b ++ "#EXT-X-DISCONTINUITY-SEQUENCE:" ++ fmtInt (Pub.dcnseq p) ++ nl)%string in
  foldl (fun b c => (b ++ Format (Pub.Prefetch p) (deref h c))%string) b segs.

(** The loop [for len(p.presegs) < p.Precreate].  Each round adds one
    precreated segment, so [Precreate - len(presegs)] rounds reach the exit
    test; [fuel] counts them. *)
Fixpoint precreate (env : Env) (fuel : nat) (p : Publisher) (h : heap)
  : Publisher * heap * option error :=
  match fuel with
  | O => (p, h, None)
  | S fuel =>
      if Z.of_nat (length (Pub.presegs p)) <? Pub.Precreate p then
        if alloc_ok env (Pub.segNum p) then
          let s := length h in
          let h := h ++ [mkSegment (Pub.segNum p) (Pub.muxHdr p) (Pub.WorkDir p)] in
          let p := Pub.with_presegs (Pub.presegs p ++ [s]) p in
          let p := Pub.with_segNum (add64 (Pub.segNum p) 1) p in
          precreate env fuel p h
        else (p, h, Some ErrSegment)
      else (p, h, None)
  end.

(** [newSegment], lines 99-101: finalize the current segment, if any. *)
Definition finalize_current (p : Publisher) (h : heap) (start : Z) : heap :=
  match Pub.current p with
  | Some c => alter (Finalize start) c h
  | None => h
  end.

(** [newSegment], lines 103-105: seed the segment counter from the clock. *)
Definition seed_segNum (env : Env) (p : Publisher) : Publisher :=
  if Pub.segNum p =? 0 then Pub.with_segNum (now env) p else p.

(** [newSegment], lines 106-117: take the oldest precreated segment, or
    construct one.  [None] is the constructor's failure. *)
Definition pick_segment (env : Env) (p : Publisher) (h : heap)
  : option (Publisher * heap * ptr) :=
  match Pub.presegs p with
  | c :: rest =>
      (* use a precreated segment *)
      Some (Pub.with_presegs rest (Pub.with_current (Some c) p), h, c)
  | [] =>
      if alloc_ok env (Pub.segNum p) then
        let c := length h in
        Some (Pub.with_current (Some c) p,
              h ++ [mkSegment (Pub.segNum p) (Pub.muxHdr p) (Pub.WorkDir p)], c)
      else None
  end.

(** [Publisher.newSegment(start)].  When the constructor fails, the
    assignment [p.current, err = newSegment(...)] leaves [current] nil. *)
Definition newSegment (env : Env) (p : Publisher) (h : heap) (start : Z) : Result :=
  let h := finalize_current p h start in
  let initialDur := targetDuration p h in
  let p := seed_segNum env p in
  match pick_segment env p h with
  | None => mkResult (Pub.with_current None p) h [] (Some ErrSegment)
  | Some (p, h, c) =>
      let h := alter (activate start initialDur (Pub.dcn p)) c h in
      let p := Pub.with_dcn false p in
      let p := Pub.with_segNum (incr64 (Pub.segNum p)) p in
      (* add the new segment and remove the old *)
      let p := Pub.with_segments (Pub.segments p ++ [c]) p in
      let '(p, h, ev) := trimSegments p h initialDur in
      (* build playlist, publish a snapshot of the segment list *)
      let segs := Pub.segments p ++ Pub.presegs p in
      let p := Pub.with_state
                 (Some (St.mk (build_playlist p h initialDur segs) segs)) p in
      (* precreate next segment *)
      let fuel := Z.to_nat (Pub.Precreate p - Z.of_nat (length (Pub.presegs p))) in
      let '(p, h, err) := precreate env fuel p h in
      mkResult p h ev err
  end.

(** [Publisher.WritePacket(pkt)]. *)
Definition WritePacket (env : Env) (p : Publisher) (h : heap) (pkt : Packet) : Result :=
  let r := if IsKeyFrame pkt then newSegment env p h (Time pkt)
           else mkResult p h [] None in
  match r_err r with
  | Some e => r
  | None =>
      let p := r_pub r in
      let h := r_heap r in
      match Pub.current p with
      | None => (* waiting for first keyframe *) r
      | Some c =>
          let p := Pub.with_mux true (Pub.with_muxBuf (mux_bytes env) p) in
          if mux_ok env then
            if write_ok env then
              mkResult p (alter (seg_Write (Pub.muxBuf p)) c h) (r_evicted r) None
            else mkResult p h (r_evicted r) (Some ErrSegWrite)
          else mkResult p h (r_evicted r) (Some ErrMuxPacket)
      end
  end.

(** [Publisher.WriteHeader(streams)]; [res] is what the muxer makes of the
    streams: the header bytes, or a failure. *)
Definition WriteHeader (res : option string) (p : Publisher) (h : heap) : Result :=
  let p := Pub.with_mux true p in
  match res with
  | None => mkResult p h [] (Some ErrMuxHeader)
  | Some tsb => mkResult (Pub.with_muxHdr tsb p) h [] None
  end.

(** [Publisher.Discontinuity()]. *)
Definition Discontinuity (p : Publisher) : Publisher := Pub.with_dcn true p.

(** [Publisher.Close()]. *)
Definition Close (p : Publisher) (h : heap) : Publisher * heap :=
  let p := Pub.with_state (Some (St.mk "" [])) p in
  let p := Pub.with_current None p in
  let h := release_all h (Pub.segments p) in
  let p := Pub.with_segments [] p in
  let h := release_all h (Pub.presegs p) in
  let p := Pub.with_presegs [] p in
  (p, h).

(** [Publisher.ServeHTTP]; [urlPath] is [req.URL.Path]. *)
Definition ServeHTTP (p : Publisher) (h : heap) (urlPath : string) : response :=
  match Pub.state p with
  | None => NotFound
  | Some state =>
      let bn := path_Base urlPath in
      if String.eqb bn "index.m3u8" then
        ServePlaylist "application/vnd.apple.mpegurl" (St.playlist state)
      else
        match find (fun c => String.eqb (Seg.name (deref h c)) bn) (St.segments state) with
        | Some c => ServeSegment c
        | None => NotFound
        end
  end.

(** ** Runs of the single writer *)

(** The calls the ingestion side can make, each with what the outside world
    answers during it. *)
Inductive op :=
| OpWriteHeader (res : option string)
| OpWritePacket (env : Env) (pkt : Packet)
| OpDiscontinuity
| OpClose.

(** The publisher, the segment store and the trace of evictions so far. *)
Record world := mkWorld {
  w_pub : Publisher;
  w_heap : heap;
  w_log : list (ptr * bool)
}.

Definition step (w : world) (o : op) : world :=
  match o with
  | OpWriteHeader res =>
      let r := WriteHeader res (w_pub w) (w_heap w) in
      mkWorld (r_pub r) (r_heap r) (w_log w ++ r_evicted r)
  | OpWritePacket env pkt =>
      let r := WritePacket env (w_pub w) (w_heap w) pkt in
      mkWorld (r_pub r) (r_heap r) (w_log w ++ r_evicted r)
  | OpDiscontinuity => mkWorld (Discontinuity (w_pub w)) (w_heap w) (w_log w)
  | OpClose =>
      let '(p, h) := Close (w_pub w) (w_heap w) in
      mkWorld p h (w_log w)
  end.

Definition run (ops : list op) (w : world) : world := foldl step w ops.

End Engine.

(** The world of a freshly declared publisher: no segment exists. *)
Definition init_world (p0 : Publisher) : world := mkWorld p0 [] [].

(** ** The specification's formulas *)

(** Ceiling of the quotient [a / b], for a positive [b]. *)
Definition ceil_div (a b : Z) : Z := - ((- a) / b).


Definition is_Finalized (s : segment) : bool :=
  match Seg.life s with Finalized => true | _ => false end.

(** The durations of the finalized segments of the window. *)
Definition finalized_durs (h : heap) (segs : list ptr) : list Z :=
  Seg.dur <$> List.filter is_Finalized (deref h <$> segs).

(** The target duration in the specification's words: the maximum finalized
    duration rounded up to whole seconds; without a finalized segment the
    configured initial guess, and 5 seconds if that is unset. *)
Definition targetDuration_spec (p : Publisher) (h : heap) : Z :=
  match finalized_durs h (Pub.segments p) with
  | [] => if Pub.InitialDuration p =? 0 then 5 * Second else Pub.InitialDuration p
  | d :: ds => ceil_div (foldr Z.max d ds) Second * Second
  end.

(** Rounding to the nearest whole second, halves up, saturating at the
    largest duration: what [Round(time.Second)] does to a duration that is
    not negative. *)
Definition round_seconds (d : Z) : Z :=
  let q := (d + Second / 2) / Second * Second in
  if q <=? max_int64 then q else max_int64.

(** The largest of zero and the durations of the window's segments. *)
Definition window_max_dur (h : heap) (segs : list ptr) : Z :=
  foldr Z.max 0 (Seg.dur <$> (deref h <$> segs)).

(** Every duration in the store is an [int64]. *)
Definition int64_durs (h : heap) : Prop :=
  Forall (fun s => min_int64 <= Seg.dur s <= max_int64) h.

(** Whether a keyframe call gets a segment to activate: one is queued, or
    the constructor succeeds. *)
Definition activates (env : Env) (p : Publisher) : bool :=
  match Pub.presegs p with
  | _ :: _ => true
  | [] => alloc_ok env (Pub.segNum (seed_segNum env p))
  end.


Definition is_Discontinuity (o : op) : bool :=
  match o with OpDiscontinuity => true | _ => false end.

Definition is_Close (o : op) : bool :=
  match o with OpClose => true | _ => false end.

(** ** Sample collaborators and inputs *)

(** A sample instance of the externals: decimal names, a playlist entry that
    is the segment name on a line, whole seconds by truncation. *)
Definition sample_fmtInt (n : Z) : string := NilZero.string_of_int (Z.to_int n).

Definition sample_externals : Externals :=
  {| segName := fun n => (sample_fmtInt n ++ ".ts")%string;
     Format := fun _ s => (Seg.name s ++ nl)%string;
     fmtInt := sample_fmtInt;
     intSeconds := fun d => Z.quot d Second |}.

(** An outside world in which nothing fails and the clock reads 1000. *)
Definition env_ok : Env := mkEnv 1000 (fun _ => true) "PKT" true true.

(** The constructor fails. *)
Definition env_noalloc : Env := mkEnv 1000 (fun _ => false) "PKT" true true.

(** The muxer rejects the packet. *)
Definition env_muxfail : Env := mkEnv 1000 (fun _ => true) "" false true.

(** The constructor succeeds for the segment to activate (id 1000) and
    fails for the one to precreate. *)
Definition env_preclfail : Env := mkEnv 1000 (fun n => n =? 1000) "PKT" true true.

Definition key_at (t : Z) : Packet := mkPacket true t "".
Definition delta_at (t : Z) : Packet := mkPacket false t "".

(** Keyframes one second apart, starting at time zero. *)
Definition keyframes (n : nat) : list op :=
  (fun i => OpWritePacket env_ok (key_at (Z.of_nat i * Second))) <$> seq 0 n.

(** Ten one-second segments under a two-second buffer, no precreation. *)
Definition world_ten : world :=
  @run sample_externals (OpWriteHeader (Some "HDR"%string) :: keyframes 10)
    (init_world (new_Publisher 0 (2 * Second) "" false 0)).

(** A window whose only segment lasted 6.4 seconds. *)
Definition pub_64 : Publisher :=
  Pub.mk 0 0 "" false 0 [0%nat] [] 1001 0 false 0 None None "" false "".
Definition heap_64 : list segment :=
  [Seg.mk 1000 "1000.ts" 0 (5 * Second) 6400000000 false "" "" Finalized].

(** [int64_durs] as a check that computes. *)
Definition int64_dursb (h : list segment) : bool :=
  forallb (fun s => (min_int64 <=? Seg.dur s) && (Seg.dur s <=? max_int64)) h.

(** The publisher and store left by [Close]. *)
Definition closed_ten : Publisher * list segment :=
  Close (w_pub world_ten) (w_heap world_ten).

(** How the segment to activate relates to the state before the call:
    it headed the precreate queue, or it is a new cell of the store. *)
Definition picked_from (p : Publisher) (h : heap) (start : Z)
    (p1 : Publisher) (h1 : heap) (c : ptr) : Prop :=
  (Pub.presegs p = c :: Pub.presegs p1 /\ h1 = finalize_current p h start)
  \/ (Pub.presegs p = [] /\ Pub.presegs p1 = [] /\ c = length h
      /\ exists s0, h1 = finalize_current p h start ++ [s0]
                    /\ Seg.hdr s0 = Pub.muxHdr p /\ Seg.dcn s0 = false
                    /\ Seg.life s0 = Created).

(** ** Invariants of runs *)

(** The counters agree with the eviction trace, modulo [2^64]. *)
Definition counted (w : world) : Prop :=
  Pub.seq (w_pub w) = wrap64 (Z.of_nat (length (w_log w)))
  /\ Pub.dcnseq (w_pub w) = wrap64 (Z.of_nat (dcn_count (w_log w))).

(** Every segment of the store is evicted, in the window or queued. *)
Definition accounted (w : world) : Prop :=
  (length (w_log w) + length (Pub.segments (w_pub w))
   + length (Pub.presegs (w_pub w)) = length (w_heap w))%nat.

(** The precreate queue points into the store. *)
Definition wf_presegs (w : world) : Prop :=
  Forall (fun c => (c < length (w_heap w))%nat) (Pub.presegs (w_pub w)).

(** One keyframe with a precreate queue of depth one. *)
Definition world_precreate : world :=
  @run sample_externals [OpWriteHeader (Some "HDR"%string); OpWritePacket env_ok (key_at 0)]
    (init_world (new_Publisher 0 0 "" false 1)).

(** Eleven one-second segments under a two-second buffer: one eviction. *)
Definition world_eleven : world :=
  @run sample_externals (OpWriteHeader (Some "HDR"%string) :: keyframes 11)
    (init_world (new_Publisher 0 (2 * Second) "" false 0)).

(** A keyframe, then [Discontinuity]. *)
Definition world_dcn : world :=
  @run sample_externals
    [OpWriteHeader (Some "HDR"%string); OpWritePacket env_ok (key_at 0); OpDiscontinuity]
    (init_world (new_Publisher 0 0 "" false 0)).

(** The eleventh keyframe of [world_ten], with a muxer that rejects it. *)
Definition result_muxfail : Result :=
  @WritePacket sample_externals env_muxfail (w_pub world_ten) (w_heap world_ten)
    (key_at (10 * Second)).

(** A call that cannot start a segment or close the publisher: anything but
    a keyframe packet and [Close]. *)
Definition is_quiet (o : op) : bool :=
  match o with
  | OpWritePacket _ pkt => negb (IsKeyFrame pkt)
  | OpClose => false
  | _ => true
  end.

(** The snapshot published in [world_ten]. *)
Definition state_ten : hlsState :=
  default (St.mk "" []) (Pub.state (w_pub world_ten)).

(** ** The shape of reachable states *)

(** Every pointer the publisher has ever held: the evicted ones, the window
    and the precreate queue. *)
Definition all_ptrs (w : world) : list ptr :=
  (w_log w).*1 ++ Pub.segments (w_pub w) ++ Pub.presegs (w_pub w).

(** The life cycle state of the segment a pointer leads to. *)
Definition life_at (h : list segment) (c : ptr) : option lifecycle :=
  Seg.life <$> h !! c.

(** What holds between the calls of a publisher that started fresh. *)
Definition wf_world (w : world) : Prop :=
  NoDup (all_ptrs w)
  /\ Forall (fun c => (c < length (w_heap w))%nat) (all_ptrs w)
  /\ Forall (fun c => life_at (w_heap w) c = Some Released) (w_log w).*1
  /\ Forall (fun c => life_at (w_heap w) c = Some Created) (Pub.presegs (w_pub w))
  /\ Forall (fun c => life_at (w_heap w) c =
                      Some (if decide (Pub.current (w_pub w) = Some c)
                            then Active else Finalized))
            (Pub.segments (w_pub w))
  /\ (forall c, Pub.current (w_pub w) = Some c ->
                last (Pub.segments (w_pub w)) = Some c)
  /\ (forall st, Pub.state (w_pub w) = Some st ->
                 exists k : nat,
                   St.segments st =
                   Pub.segments (w_pub w) ++ take k (Pub.presegs (w_pub w))).

(** Strictly increasing, position by position. *)
Definition increasing (l : list Z) : Prop :=
  forall (i j : nat) (a b : Z),
    (i < j)%nat -> l !! i = Some a -> l !! j = Some b -> a < b.

(** The ids of the segments of the store, in the order of their creation,
    are positive, increase strictly and lie below the counter. *)
Definition ids_ok (w : world) : Prop :=
  0 <= Pub.segNum (w_pub w)
  /\ Forall (fun x => 0 < x < Pub.segNum (w_pub w)) (Seg.num <$> w_heap w)
  /\ increasing (Seg.num <$> w_heap w).

(** The clock reads a positive time, at most [N], in every [WritePacket]. *)
Definition clock_within (N : Z) (o : op) : Prop :=
  match o with
  | OpWritePacket env _ => 0 < now env <= N
  | _ => True
  end.

(** ** The resources the specification names *)

(** [s] ends with [t]. *)
Fixpoint ends_with (s t : string) : bool :=
  String.eqb s t
  || match s with
     | EmptyString => false
     | String _ rest => ends_with rest t
     end.

(** The path is [<mount>/<nm>] for some mount, in the specification's
    words. *)
Definition under_mount (urlPath nm : string) : bool :=
  ends_with urlPath (String "/" nm).

(** The path is the playlist path [<mount>/index.m3u8], or
    [<mount>/<segment-name>] for a segment name of the current snapshot. *)
Definition named_resource (p : Publisher) (h : heap) (urlPath : string) : bool :=
  under_mount urlPath "index.m3u8"
  || match Pub.state p with
     | None => false
     | Some st =>
         existsb (fun c => under_mount urlPath (Seg.name (deref h c)))
                 (St.segments st)
     end.

(** A keyframe packet that gets a segment to activate. *)
Definition is_activation (w : world) (o : op) : bool :=
  match o with
  | OpWritePacket env pkt => IsKeyFrame pkt && activates env (w_pub w)
  | _ => false
  end.

(** * Proofs *)

(** ** Fixed-width arithmetic *)

Lemma two_63 : 2 ^ 63 = 9223372036854775808.
Proof. reflexivity. Qed.

Lemma two_64 : 2 ^ 64 = 18446744073709551616.
Proof. reflexivity. Qed.

Ltac unfold_int64 :=
  unfold add64, sub64, quot64, wrap64, to_uint64, minDuration, maxDuration,
    min_int64, max_int64, Second in *;
  rewrite ?two_63, ?two_64 in *.

Lemma wrap64_id z : min_int64 <= z <= max_int64 -> wrap64 z = z.
Proof. intros Hz. unfold_int64. rewrite Z.mod_small; lia. Qed.


Lemma wrap64_add_l a b : wrap64 (wrap64 a + b) = wrap64 (a + b).
Proof.
  unfold wrap64. f_equal.
  replace ((a + 2 ^ 63) mod 2 ^ 64 - 2 ^ 63 + b + 2 ^ 63)
    with ((a + 2 ^ 63) mod 2 ^ 64 + b) by lia.
  rewrite Zplus_mod_idemp_l. f_equal. lia.
Qed.

(** [n] increments of a counter, each wrapping, add [n] modulo [2^64]. *)
Lemma add64_iter (z : Z) (n : nat) :
  Nat.iter n incr64 (wrap64 z) = wrap64 (z + Z.of_nat n).
Proof.
  induction n as [|n IH]; simpl.
  - f_equal. lia.
  - rewrite IH. unfold incr64, add64. rewrite wrap64_add_l. f_equal. lia.
Qed.

(** ** [Duration.Round] on durations that are not negative *)

Lemma Duration_Round_nonneg d :
  0 <= d <= max_int64 -> Duration_Round d Second = round_seconds d.
Proof.
  intros Hd. unfold Duration_Round, round_seconds, lessThanHalf.
  assert (HS : Second = 1000000000) by reflexivity.
  destruct (Z.leb_spec Second 0) as [?|_]; [lia|].
  destruct (Z.ltb_spec d 0) as [?|_]; [lia|].
  rewrite Z.rem_mod_nonneg by lia.
  pose proof (Z.mod_pos_bound d Second ltac:(lia)) as Hr.
  pose proof (Z.div_mod d Second ltac:(lia)) as Hdm.
  set (r := d mod Second) in *. set (q := d / Second) in *.
  assert (Hu : to_uint64 r = r) by (unfold_int64; rewrite Z.mod_small; lia).
  assert (HuS : to_uint64 Second = Second) by reflexivity.
  rewrite Hu, HuS.
  assert (Hrr : (r + r) mod 2 ^ 64 = r + r) by (rewrite two_64, Z.mod_small; lia).
  rewrite Hrr.
  change (Second / 2) with 500000000.
  destruct (Z.ltb_spec (r + r) Second) as [Hlt|Hge].
  - assert (Hq : (d + 500000000) / Second = q).
    { symmetry. apply (Z.div_unique _ _ q (r + 500000000)); lia. }
    rewrite Hq.
    assert (Hsub : sub64 d r = q * Second).
    { unfold sub64. rewrite wrap64_id; unfold max_int64, min_int64 in *; lia. }
    rewrite Hsub.
    destruct (Z.leb_spec (q * Second) max_int64); [done|].
    unfold max_int64 in *; lia.
  - assert (Hq : (d + 500000000) / Second = q + 1).
    { symmetry. apply (Z.div_unique _ _ (q + 1) (r - 500000000)); lia. }
    rewrite Hq.
    destruct (Z.leb_spec ((q + 1) * Second) max_int64) as [Hfit|Hover].
    + assert (Hd1 : wrap64 (d + Second - r) = (q + 1) * Second).
      { rewrite wrap64_id; unfold max_int64, min_int64 in *; lia. }
      rewrite Hd1.
      destruct (Z.gtb_spec ((q + 1) * Second) d); [done|lia].
    + assert (Hd1 : wrap64 (d + Second - r) = (q + 1) * Second - 2 ^ 64).
      { unfold wrap64.
        rewrite <- (Z.mod_unique (d + Second - r + 2 ^ 63) (2 ^ 64) 1
                      ((q + 1) * Second - 2 ^ 63)); [lia| |].
        - left. unfold max_int64 in *. rewrite ?two_63, ?two_64 in *. lia.
        - rewrite two_63, two_64. lia. }
      rewrite Hd1.
      destruct (Z.gtb_spec ((q + 1) * Second - 2 ^ 64) d) as [Hgt|_]; [|done].
      unfold max_int64 in *. rewrite ?two_63, ?two_64 in *. lia.
Qed.

(** ** The target duration *)

Lemma window_max_dur_cons (h : heap) (c : ptr) (segs : list ptr) :
  window_max_dur h (c :: segs) = Z.max (Seg.dur (deref h c)) (window_max_dur h segs).
Proof. reflexivity. Qed.

Lemma max_dur_from (h : heap) (segs : list ptr) (a : Z) :
  0 <= a ->
  foldl (fun maxTime c =>
           if Seg.dur (deref h c) >? maxTime then Seg.dur (deref h c) else maxTime)
        a segs
  = Z.max a (window_max_dur h segs).
Proof.
  revert a. induction segs as [|c segs IH]; intros a Ha; simpl.
  - unfold window_max_dur. simpl. lia.
  - rewrite window_max_dur_cons.
    destruct (Z.gtb_spec (Seg.dur (deref h c)) a); rewrite IH by lia; lia.
Qed.

Lemma window_max_dur_nonneg (h : heap) (segs : list ptr) :
  0 <= window_max_dur h segs.
Proof.
  induction segs as [|c segs IH]; [done|].
  rewrite window_max_dur_cons. lia.
Qed.

Lemma max_dur_window (h : heap) (segs : list ptr) :
  max_dur h segs = window_max_dur h segs.
Proof.
  unfold max_dur. rewrite max_dur_from by lia.
  pose proof (window_max_dur_nonneg h segs). lia.
Qed.

Lemma deref_dur_int64 (h : heap) (c : ptr) :
  int64_durs h -> min_int64 <= Seg.dur (deref h c) <= max_int64.
Proof.
  intros Hh. unfold deref. destruct (h !! c) as [s|] eqn:Hc; simpl.
  - unfold int64_durs in Hh. rewrite Forall_lookup in Hh. exact (Hh _ _ Hc).
  - unfold min_int64, max_int64. simpl. lia.
Qed.

Lemma window_max_dur_int64 (h : heap) (segs : list ptr) :
  int64_durs h -> 0 <= window_max_dur h segs <= max_int64.
Proof.
  intros Hh. split; [apply window_max_dur_nonneg|].
  induction segs as [|c segs IH].
  - unfold window_max_dur, max_int64. simpl. lia.
  - rewrite window_max_dur_cons. pose proof (deref_dur_int64 h c Hh). lia.
Qed.

Lemma round_seconds_nonneg d : 0 <= d -> 0 <= round_seconds d.
Proof.
  intros Hd. unfold round_seconds.
  change (Second / 2) with 500000000.
  pose proof (Z.div_pos (d + 500000000) Second ltac:(lia) ltac:(reflexivity)).
  destruct (Z.leb_spec ((d + 500000000) / Second * Second) max_int64).
  - unfold Second in *. lia.
  - unfold max_int64. lia.
Qed.

Lemma round_seconds_zero d :
  0 <= d -> (round_seconds d = 0 <-> d < 500000000).
Proof.
  intros Hd. unfold round_seconds.
  change (Second / 2) with 500000000. unfold Second, max_int64. rewrite two_63.
  pose proof (Z.div_mod (d + 500000000) 1000000000 ltac:(lia)) as Hdm.
  pose proof (Z.mod_pos_bound (d + 500000000) 1000000000 ltac:(lia)) as Hr.
  destruct (Z.leb_spec ((d + 500000000) / 1000000000 * 1000000000)
              (9223372036854775808 - 1)); lia.
Qed.

(** The estimate handed to [trimSegments] is never zero, so the division
    there is defined. *)
Lemma targetDuration_nonzero (p : Publisher) (h : heap) : targetDuration p h <> 0.
Proof.
  unfold targetDuration.
  destruct (Z.eqb_spec (Duration_Round (max_dur h (Pub.segments p)) Second) 0).
  - destruct (Z.eqb_spec (Pub.InitialDuration p) 0); [unfold Second; lia|done].
  - destruct (Z.eqb_spec (Duration_Round (max_dur h (Pub.segments p)) Second) 0); done.
Qed.

Lemma targetDuration_round (p : Publisher) (h : heap) :
  int64_durs h ->
  targetDuration p h =
    let r := round_seconds (window_max_dur h (Pub.segments p)) in
    if r =? 0
    then if Pub.InitialDuration p =? 0 then 5 * Second else Pub.InitialDuration p
    else r.
Proof.
  intros Hh. unfold targetDuration.
  rewrite max_dur_window, Duration_Round_nonneg by (by apply window_max_dur_int64).
  simpl.
  destruct (Z.eqb_spec (round_seconds (window_max_dur h (Pub.segments p))) 0) as [E|E].
  - done.
  - by destruct (Z.eqb_spec (round_seconds (window_max_dur h (Pub.segments p))) 0).
Qed.

Lemma targetDuration_pos (p : Publisher) (h : heap) :
  int64_durs h -> 0 <= Pub.InitialDuration p -> 0 < targetDuration p h.
Proof.
  intros Hh Hi. rewrite targetDuration_round by done. simpl.
  pose proof (round_seconds_nonneg (window_max_dur h (Pub.segments p))
                (window_max_dur_nonneg _ _)).
  destruct (Z.eqb_spec (round_seconds (window_max_dur h (Pub.segments p))) 0).
  - destruct (Z.eqb_spec (Pub.InitialDuration p) 0); [unfold Second|]; lia.
  - lia.
Qed.

(** ** The number of segments to keep *)




Lemma keepSegments_ge_10 (p : Publisher) (segmentLen : Z) :
  10 <= keepSegments p segmentLen.
Proof.
  unfold keepSegments.
  match goal with |- context [?k <? 10] => destruct (Z.ltb_spec k 10) end; lia.
Qed.

(** ** The store under [Release] *)

Lemma deref_release_dcn (h : heap) (c c' : ptr) :
  Seg.dcn (deref (alter Release c h) c') = Seg.dcn (deref h c').
Proof.
  unfold deref. destruct (decide (c = c')) as [->|Hne].
  - rewrite list_lookup_alter_eq. by destruct (h !! c').
  - by rewrite list_lookup_alter_ne.
Qed.

Lemma with_flags_release (h : heap) (c : ptr) (l : list ptr) :
  with_flags (alter Release c h) l = with_flags h l.
Proof.
  unfold with_flags. apply list_fmap_ext. intros _ c' _.
  by rewrite deref_release_dcn.
Qed.

Lemma with_flags_length (h : heap) (l : list ptr) :
  length (with_flags h l) = length l.
Proof. unfold with_flags. apply length_fmap. Qed.

Lemma release_all_length (h : heap) (l : list ptr) :
  length (release_all h l) = length h.
Proof.
  revert h. induction l as [|c l IH]; intros h; [done|].
  simpl. rewrite IH. apply length_alter.
Qed.

Lemma release_all_lookup (h : heap) (l : list ptr) (c : ptr) :
  release_all h l !! c = if bool_decide (c ∈ l) then Release <$> h !! c else h !! c.
Proof.
  revert h. induction l as [|c0 l IH]; intros h; [done|].
  simpl. rewrite IH. destruct (decide (c0 = c)) as [->|Hne].
  - rewrite list_lookup_alter_eq.
    rewrite (bool_decide_eq_true_2 (c ∈ c :: l)) by set_solver.
    case_bool_decide; [|done]. by destruct (h !! c).
  - rewrite list_lookup_alter_ne by done.
    rewrite (bool_decide_ext (c ∈ c0 :: l) (c ∈ l)); [done|].
    rewrite elem_of_cons. split; [by intros [->|?]|by right].
Qed.

(** ** The eviction loop *)

Lemma dcn_count_app (l1 l2 : list (ptr * bool)) :
  dcn_count (l1 ++ l2) = (dcn_count l1 + dcn_count l2)%nat.
Proof. unfold dcn_count. by rewrite List.filter_app, length_app. Qed.

Lemma dcn_count_cons (c : ptr) (b : bool) (l : list (ptr * bool)) :
  dcn_count ((c, b) :: l) = if b then S (dcn_count l) else dcn_count l.
Proof. by destruct b. Qed.

Lemma fold_evict (l : list ptr) (p : Publisher) (h : heap) (log : list (ptr * bool)) :
  foldl evict_one (p, h, log) l =
    (Pub.with_dcnseq (Nat.iter (dcn_count (with_flags h l)) incr64 (Pub.dcnseq p))
       (Pub.with_seq (Nat.iter (length l) incr64 (Pub.seq p)) p),
     release_all h l,
     log ++ with_flags h l).
Proof.
  revert p h log. induction l as [|c l IH]; intros p h log.
  - simpl. rewrite app_nil_r. by destruct p.
  - simpl foldl. rewrite IH.
    rewrite with_flags_release.
    change (with_flags h (c :: l)) with ((c, Seg.dcn (deref h c)) :: with_flags h l).
    rewrite <- app_assoc. simpl app.
    rewrite dcn_count_cons.
    f_equal. f_equal.
    rewrite (Nat.iter_succ_r (length l)).
    destruct (Seg.dcn (deref h c)); [rewrite Nat.iter_succ_r|]; by destruct p.
Qed.

Lemma trimSegments_eq (p : Publisher) (h : heap) (segmentLen : Z) :
  let n := Z.to_nat (Z.of_nat (length (Pub.segments p)) - keepSegments p segmentLen) in
  let ev := take n (Pub.segments p) in
  trimSegments p h segmentLen =
    (Pub.with_segments (drop n (Pub.segments p))
       (Pub.with_dcnseq (Nat.iter (dcn_count (with_flags h ev)) incr64 (Pub.dcnseq p))
          (Pub.with_seq (Nat.iter (length ev) incr64 (Pub.seq p)) p)),
     release_all h ev,
     with_flags h ev).
Proof.
  intros n ev. unfold trimSegments.
  destruct (Z.leb_spec (Z.of_nat (length (Pub.segments p)) - keepSegments p segmentLen) 0)
    as [Hle|Hgt].
  - assert (Hn : n = 0%nat) by (unfold n; lia).
    unfold ev. rewrite Hn. simpl. by destruct p.
  - fold n. fold ev. rewrite fold_evict. simpl. by destruct p.
Qed.

(** ** The precreate loop *)

Section Precreate.

Context `{Externals}.

Lemma precreate_eq (env : Env) (fuel : nat) (p : Publisher) (h : heap) :
  exists (cells : list segment) (sn : Z) (err : option error),
    precreate env fuel p h =
      (Pub.with_segNum sn
         (Pub.with_presegs (Pub.presegs p ++ seq (length h) (length cells)) p),
       h ++ cells, err)
    /\ Forall (fun s => Seg.hdr s = Pub.muxHdr p /\ Seg.life s = Created) cells
    /\ (length cells <= fuel)%nat
    /\ (err = None ->
        (Z.to_nat (Pub.Precreate p - Z.of_nat (length (Pub.presegs p))) <= fuel)%nat ->
        ~ Z.of_nat (length (Pub.presegs p) + length cells) < Pub.Precreate p).
Proof.
  revert p h. induction fuel as [|fuel IH]; intros p h.
  - exists [], (Pub.segNum p), None. simpl. rewrite !app_nil_r.
    split; [by destruct p|]. split; [done|]. split; [done|]. lia.
  - simpl.
    destruct (Z.ltb_spec (Z.of_nat (length (Pub.presegs p))) (Pub.Precreate p)) as [Hlt|Hge].
    + destruct (alloc_ok env (Pub.segNum p)).
      * edestruct IH as (cells & sn & err & Heq & Hcells & Hlen & Hexit).
        rewrite Heq.
        exists (mkSegment (Pub.segNum p) (Pub.muxHdr p) (Pub.WorkDir p) :: cells), sn, err.
        split; [|split; [|split]].
        -- destruct p; simpl. rewrite length_app, <- !app_assoc. simpl.
           by rewrite Nat.add_1_r.
        -- constructor; [done|]. by destruct p.
        -- simpl. lia.
        -- intros He Hf. specialize (Hexit He). destruct p; simpl in *.
           rewrite length_app in Hexit. simpl in Hexit. lia.
      * exists [], (Pub.segNum p), (Some ErrSegment). simpl. rewrite !app_nil_r.
        split; [by destruct p|]. split; [done|]. split; [lia|done].
    + exists [], (Pub.segNum p), None. simpl. rewrite !app_nil_r.
      split; [by destruct p|]. split; [done|]. split; [lia|]. lia.
Qed.

End Precreate.

(** Reduction of the publisher's projections and setters only. *)
Ltac pub_simpl :=
  unfold Pub.with_segments, Pub.with_presegs, Pub.with_segNum, Pub.with_seq,
    Pub.with_dcn, Pub.with_dcnseq, Pub.with_state, Pub.with_current,
    Pub.with_muxBuf, Pub.with_mux, Pub.with_muxHdr in *;
  cbn [Pub.InitialDuration Pub.BufferLength Pub.WorkDir Pub.Prefetch
       Pub.Precreate Pub.segments Pub.presegs Pub.segNum Pub.seq Pub.dcn
       Pub.dcnseq Pub.state Pub.current Pub.muxBuf Pub.mux Pub.muxHdr
       r_pub r_heap r_evicted r_err St.playlist St.segments
       w_pub w_heap w_log] in *.

(** ** Starting a segment *)

Section NewSegment.

Context `{Externals}.

Lemma keepSegments_ext (q p : Publisher) (segmentLen : Z) :
  Pub.BufferLength q = Pub.BufferLength p ->
  keepSegments q segmentLen = keepSegments p segmentLen.
Proof. intros Hq. unfold keepSegments, goalLen. by rewrite Hq. Qed.

Lemma pick_segment_Some (env : Env) (p : Publisher) (h : heap)
    (p1 : Publisher) (h1 : heap) (c : ptr) :
  pick_segment env p h = Some (p1, h1, c) ->
  (exists rest, Pub.presegs p = c :: rest /\ h1 = h
                /\ p1 = Pub.with_presegs rest (Pub.with_current (Some c) p))
  \/ (Pub.presegs p = [] /\ alloc_ok env (Pub.segNum p) = true /\ c = length h
      /\ h1 = h ++ [mkSegment (Pub.segNum p) (Pub.muxHdr p) (Pub.WorkDir p)]
      /\ p1 = Pub.with_current (Some c) p).
Proof.
  unfold pick_segment. destruct (Pub.presegs p) as [|c0 rest] eqn:Hpre.
  - destruct (alloc_ok env (Pub.segNum p)) eqn:Ha; [|done].
    intros [= <- <- <-]. right. done.
  - intros [= <- <- <-]. left. by exists rest.
Qed.

Lemma pick_segment_activates (env : Env) (p : Publisher) (h : heap) :
  is_Some (pick_segment env (seed_segNum env p) h) <-> activates env p = true.
Proof.
  unfold pick_segment, activates.
  assert (Hpre : Pub.presegs (seed_segNum env p) = Pub.presegs p).
  { unfold seed_segNum. destruct (Pub.segNum p =? 0); by destruct p. }
  rewrite Hpre. destruct (Pub.presegs p).
  - destruct (alloc_ok env (Pub.segNum (seed_segNum env p))); split;
      [done|done|by intros [? ?]|done].
  - split; [done|]. by eexists.
Qed.

(** Everything [newSegment] leaves behind once it has a segment to
    activate. *)
Lemma newSegment_picked (env : Env) (p : Publisher) (h : heap) (start : Z)
    (p1 : Publisher) (h1 : heap) (c : ptr) :
  pick_segment env (seed_segNum env p) (finalize_current p h start) = Some (p1, h1, c) ->
  let est := targetDuration p (finalize_current p h start) in
  let h2 := alter (activate start est (Pub.dcn p)) c h1 in
  let segs := Pub.segments p ++ [c] in
  let n := Z.to_nat (Z.of_nat (length segs) - keepSegments p est) in
  let ev := take n segs in
  exists (cells : list segment) (sn : Z) (pl : string) (err : option error),
    newSegment env p h start =
      mkResult
        (Pub.mk (Pub.InitialDuration p) (Pub.BufferLength p) (Pub.WorkDir p)
                (Pub.Prefetch p) (Pub.Precreate p)
                (drop n segs)
                (Pub.presegs p1 ++ seq (length h1) (length cells))
                sn
                (Nat.iter (length ev) incr64 (Pub.seq p))
                false
                (Nat.iter (dcn_count (with_flags h2 ev)) incr64 (Pub.dcnseq p))
                (Some (St.mk pl (drop n segs ++ Pub.presegs p1)))
                (Some c) (Pub.muxBuf p) (Pub.mux p) (Pub.muxHdr p))
        (release_all h2 ev ++ cells) (with_flags h2 ev) err
    /\ Forall (fun s => Seg.hdr s = Pub.muxHdr p /\ Seg.life s = Created) cells
    /\ (length cells <= Z.to_nat (Pub.Precreate p - Z.of_nat (length (Pub.presegs p1))))%nat
    /\ (err = None ->
        ~ Z.of_nat (length (Pub.presegs p1) + length cells) < Pub.Precreate p).
Proof.
  destruct p as [iD bL wd pf pc sg pre sn sq dc dq st cur mb mx mh].
  intros Hpick est h2 segs n ev. pub_simpl.
  assert (Hp1 : exists pre1 sn0, p1 =
            Pub.mk iD bL wd pf pc sg pre1 sn0 sq dc dq st (Some c) mb mx mh).
  { apply pick_segment_Some in Hpick. unfold seed_segNum in Hpick.
    pub_simpl.
    destruct Hpick as [(rest & _ & _ & ->)|(_ & _ & _ & _ & ->)];
      destruct (sn =? 0); pub_simpl; eauto. }
  destruct Hp1 as (pre1 & sn0 & ->).
  unfold newSegment. rewrite Hpick. clear Hpick. fold est. pub_simpl.
  rewrite trimSegments_eq. pub_simpl.
  match goal with
  | |- context [precreate env ?f ?q ?hh] =>
      destruct (precreate_eq env f q hh) as (cells & sn1 & err & Heq & Hcells & Hlen & Hexit);
      rewrite Heq; clear Heq
  end.
  pub_simpl. rewrite release_all_length, length_alter in *.
  exists cells, sn1. eexists _, err. split; [|split; [|split]].
  - rewrite !(keepSegments_ext
               (Pub.mk iD bL wd pf pc (sg ++ [c]) pre1 (incr64 sn0) sq false dq st
                       (Some c) mb mx mh)
               (Pub.mk iD bL wd pf pc sg pre sn sq dc dq st cur mb mx mh) est eq_refl).
    reflexivity.
  - done.
  - done.
  - intros He. apply Hexit; [done|]. pub_simpl. lia.
Qed.

End NewSegment.

(** ** Writing a packet *)

Section WritePacket.

Context `{Externals}.

Lemma newSegment_not_picked (env : Env) (p : Publisher) (h : heap) (start : Z) :
  pick_segment env (seed_segNum env p) (finalize_current p h start) = None ->
  newSegment env p h start =
    mkResult (Pub.with_current None (seed_segNum env p))
             (finalize_current p h start) [] (Some ErrSegment).
Proof. intros Hpick. unfold newSegment. by rewrite Hpick. Qed.

Lemma pick_segment_None (env : Env) (p : Publisher) (h : heap) :
  activates env p = false -> pick_segment env (seed_segNum env p) h = None.
Proof.
  intros Ha. destruct (pick_segment env (seed_segNum env p) h) eqn:E; [|done].
  assert (Hs : is_Some (pick_segment env (seed_segNum env p) h)) by (by eexists).
  apply pick_segment_activates in Hs. congruence.
Qed.

Lemma pick_segment_is_Some (env : Env) (p : Publisher) (h : heap) :
  activates env p = true ->
  exists p1 h1 c, pick_segment env (seed_segNum env p) h = Some (p1, h1, c).
Proof.
  intros Ha. apply (pick_segment_activates env p h) in Ha.
  destruct Ha as [[[p1 h1] c] E]. by exists p1, h1, c.
Qed.

(** [WritePacket] after its keyframe step: the muxer's buffer and the
    current segment's payload are all it touches. *)
Lemma WritePacket_after (env : Env) (p : Publisher) (h : heap) (pkt : Packet) :
  let r0 := if IsKeyFrame pkt then newSegment env p h (Time pkt)
            else mkResult p h [] None in
  let r := WritePacket env p h pkt in
  r_evicted r = r_evicted r0
  /\ (r_pub r = r_pub r0
      \/ r_pub r = Pub.with_mux true (Pub.with_muxBuf (mux_bytes env) (r_pub r0)))
  /\ (r_heap r = r_heap r0
      \/ exists c, Pub.current (r_pub r0) = Some c
                   /\ r_heap r = alter (seg_Write (mux_bytes env)) c (r_heap r0))
  /\ (r_err r0 <> None -> r = r0).
Proof.
  intros r0 r. unfold r, WritePacket. fold r0.
  destruct (r_err r0) as [e|] eqn:He.
  - repeat split; auto.
  - destruct (Pub.current (r_pub r0)) as [c|] eqn:Hc.
    + destruct (mux_ok env), (write_ok env); simpl.
      all: split; [done|].
      all: split; [by right|].
      all: split; [|done].
      all: eauto.
    + repeat split; auto.
Qed.




Lemma seed_segNum_fields (env : Env) (p : Publisher) :
  exists sn, seed_segNum env p = Pub.with_segNum sn p
             /\ (Pub.segNum p <> 0 -> sn = Pub.segNum p).
Proof.
  unfold seed_segNum. destruct (Z.eqb_spec (Pub.segNum p) 0).
  - by exists (now env).
  - exists (Pub.segNum p). by destruct p.
Qed.


End WritePacket.

Lemma int64_dursb_correct (h : heap) : int64_dursb h = true -> int64_durs h.
Proof.
  unfold int64_dursb, int64_durs. rewrite forallb_forall, List.Forall_forall.
  intros Hb s Hs. specialize (Hb s Hs). apply andb_prop in Hb as [H1 H2]. lia.
Qed.

Ltac int64_durs_by_computation :=
  apply int64_dursb_correct; vm_compute; reflexivity.


(** ** C2: the target duration *)

Lemma window_max_dur_upper (h : heap) (segs : list ptr) (c : ptr) :
  c ∈ segs -> Seg.dur (deref h c) <= window_max_dur h segs.
Proof.
  induction segs as [|c0 segs IH]; intros Hc.
  - by apply elem_of_nil in Hc.
  - rewrite window_max_dur_cons. apply elem_of_cons in Hc as [->|Hc].
    + lia.
    + specialize (IH Hc). lia.
Qed.

Lemma window_max_dur_attained (h : heap) (segs : list ptr) :
  window_max_dur h segs = 0
  \/ exists c, c ∈ segs /\ Seg.dur (deref h c) = window_max_dur h segs.
Proof.
  induction segs as [|c0 segs IH]; [by left|].
  rewrite window_max_dur_cons.
  destruct (Z.max_spec (Seg.dur (deref h c0)) (window_max_dur h segs)) as [[Hlt ->]|[Hge ->]].
  - destruct IH as [Hz|(c & Hc & Hd)]; [by left|].
    right. exists c. split; [apply elem_of_cons; by right|done].
  - right. exists c0. split; [apply elem_of_cons; by left|done].
Qed.

(** C2, as amended. [targetDuration] takes the largest duration in the
    window (zero when none is positive), rounds it to the nearest whole
    second, halves up, and returns that unless it is zero; it is zero exactly
    when the largest duration is under half a second, and then the result is
    [InitialDuration], or 5 seconds when that is zero too. *)
Theorem C2_targetDuration_rounds_to_nearest (p : Publisher) (h : heap) :
  int64_durs h ->
  let m := window_max_dur h (Pub.segments p) in
  let fallback :=
    if Pub.InitialDuration p =? 0 then 5 * Second else Pub.InitialDuration p in
  targetDuration p h = (if round_seconds m =? 0 then fallback else round_seconds m)
  /\ (round_seconds m = 0 <-> m < 500000000)
  /\ (forall c, c ∈ Pub.segments p -> Seg.dur (deref h c) <= m)
  /\ (m = 0 \/ exists c, c ∈ Pub.segments p /\ Seg.dur (deref h c) = m).
Proof.
  intros Hh m fallback. split; [|split; [|split]].
  - by apply targetDuration_round.
  - apply round_seconds_zero, window_max_dur_nonneg.
  - intros c Hc. by apply window_max_dur_upper.
  - apply window_max_dur_attained.
Qed.

Lemma C2_targetDuration_witness :
  targetDuration pub_64 heap_64 = 6 * Second
  /\ window_max_dur heap_64 (Pub.segments pub_64) = 6400000000.
Proof.
  destruct (C2_targetDuration_rounds_to_nearest pub_64 heap_64) as (H1 & _).
  - int64_durs_by_computation.
  - split; [rewrite H1|]; vm_compute; reflexivity.
Defined.

(** The claim as worded fails: a window whose only segment lasted 6.4
    seconds gets 6 seconds, not the 7 that rounding up gives. *)
Lemma C2_rounded_up_counterexample :
  targetDuration pub_64 heap_64 = 6 * Second
  /\ targetDuration_spec pub_64 heap_64 = 7 * Second
  /\ targetDuration pub_64 heap_64 <> targetDuration_spec pub_64 heap_64.
Proof. vm_compute. repeat split; discriminate. Qed.

(** ** C7: packets before the first keyframe *)

(** C7. A packet that is not a keyframe, arriving while there is no current
    segment, is dropped: no error, and the publisher and the store are
    exactly as before. *)
Theorem C7_packet_before_first_keyframe_dropped `{Externals}
    (env : Env) (p : Publisher) (h : heap) (pkt : Packet) :
  IsKeyFrame pkt = false -> Pub.current p = None ->
  WritePacket env p h pkt = mkResult p h [] None.
Proof.
  intros Hk Hc. unfold WritePacket. rewrite Hk. cbn [r_err r_pub]. by rewrite Hc.
Qed.

Lemma C7_dropped_witness :
  @WritePacket sample_externals env_ok (new_Publisher 0 0 "" false 0) []
     (delta_at 0)
  = mkResult (new_Publisher 0 0 "" false 0) [] [] None.
Proof.
  apply (@C7_packet_before_first_keyframe_dropped sample_externals); reflexivity.
Defined.

(** ** [path.Base] *)

Lemma strip_trailing_slashes_id (s : string) :
  s <> EmptyString -> has_slash s = false -> strip_trailing_slashes s = s.
Proof.
  induction s as [|c s IH]; [done|]. intros _ Hs. simpl in Hs.
  apply orb_false_elim in Hs as [Hc Hs]. simpl.
  destruct s as [|c' s'].
  - simpl. by rewrite Hc.
  - rewrite IH by done. done.
Qed.

Lemma strip_trailing_slashes_app (s t : string) :
  t <> EmptyString -> has_slash t = false ->
  strip_trailing_slashes (s ++ t) = (s ++ t)%string.
Proof.
  intros Ht Hs. induction s as [|c s IH]; simpl.
  - by apply strip_trailing_slashes_id.
  - rewrite IH. destruct (s ++ t)%string eqn:E; [|done].
    destruct s; simpl in E; [by subst|done].
Qed.

Lemma has_slash_app (s t : string) :
  has_slash (s ++ t) = has_slash s || has_slash t.
Proof. induction s as [|c s IH]; simpl; [done|]. by rewrite IH, orb_assoc. Qed.

Lemma after_last_slash_app (s t : string) :
  has_slash t = false -> after_last_slash (s ++ String "/" t) = t.
Proof.
  intros Ht. induction s as [|c s IH]; simpl.
  - by rewrite Ht.
  - rewrite has_slash_app. simpl. rewrite orb_true_r. done.
Qed.

Lemma string_app_snoc (s t : string) (c : ascii) :
  (s ++ String c t = (s ++ String c EmptyString) ++ t)%string.
Proof. induction s as [|c0 s IH]; simpl; [done|]. by rewrite IH. Qed.

(** The basename of [mount/name] is [name]. *)
Lemma path_Base_mount (mount nm : string) :
  nm <> EmptyString -> has_slash nm = false ->
  path_Base (mount ++ String "/" nm) = nm.
Proof.
  intros Hn Hs. unfold path_Base.
  destruct (mount ++ String "/" nm)%string eqn:E.
  - destruct mount; simpl in E; done.
  - rewrite <- E. rewrite (string_app_snoc mount nm).
    rewrite strip_trailing_slashes_app by done.
    rewrite <- string_app_snoc.
    rewrite after_last_slash_app by done. by destruct nm.
Qed.

(** ** C9 and C4: what readers are served *)

Lemma find_none_iff {A} (f : A -> bool) (l : list A) :
  (forall x, x ∈ l -> f x = false) -> find f l = None.
Proof.
  induction l as [|x l IH]; intros Hf; [done|]. simpl.
  rewrite (Hf x) by (apply elem_of_cons; by left).
  apply IH. intros y Hy. apply Hf, elem_of_cons. by right.
Qed.

Lemma ServeHTTP_not_found (p : Publisher) (h : heap) (urlPath : string) :
  (forall st, Pub.state p = Some st ->
              path_Base urlPath <> "index.m3u8"%string
              /\ forall c, c ∈ St.segments st ->
                           Seg.name (deref h c) <> path_Base urlPath) ->
  ServeHTTP p h urlPath = NotFound.
Proof.
  intros Hno. unfold ServeHTTP.
  destruct (Pub.state p) as [st|]; [|done].
  destruct (Hno st eq_refl) as [Hpl Hseg].
  destruct (String.eqb_spec (path_Base urlPath) "index.m3u8"); [done|].
  rewrite find_none_iff; [done|].
  intros c Hc. apply String.eqb_neq. by apply Hseg.
Qed.

(** What [ends_with] decides: the path is a mount followed by the suffix. *)
Lemma ends_with_spec (s t : string) :
  ends_with s t = true <-> exists mount : string, s = (mount ++ t)%string.
Proof.
  induction s as [|c s IH]; cbn [ends_with].
  - rewrite orb_false_r, String.eqb_eq. split.
    + intros <-. by exists EmptyString.
    + intros (mount & E). destruct mount; simpl in E; done.
  - rewrite orb_true_iff, IH, String.eqb_eq. split.
    + intros [<-|(mount & ->)]; [by exists EmptyString|by exists (String c mount)].
    + intros (mount & E). destruct mount as [|c' mount]; simpl in E.
      * by left.
      * injection E as -> ->. right. by exists mount.
Qed.

(** C9, as amended. A request whose basename, as [path.Base] gives it, is
    neither the playlist name nor the name of a segment of the current
    snapshot is answered not-found (as is every request before the first
    snapshot); and the basename of [mount/name] is [name]. *)
Theorem C9_unknown_resource_not_found :
  (forall (p : Publisher) (h : heap) (urlPath : string),
      (forall st, Pub.state p = Some st ->
                  path_Base urlPath <> "index.m3u8"%string
                  /\ forall c, c ∈ St.segments st ->
                               Seg.name (deref h c) <> path_Base urlPath) ->
      ServeHTTP p h urlPath = NotFound)
  /\ (forall mount nm : string,
         nm <> EmptyString -> has_slash nm = false ->
         path_Base (mount ++ String "/" nm) = nm).
Proof. split; [apply ServeHTTP_not_found|apply path_Base_mount]. Qed.

Lemma C9_not_found_witness :
  ServeHTTP (w_pub world_ten) (w_heap world_ten) "/live/9999.ts" = NotFound
  /\ path_Base ("/live" ++ String "/" "9999.ts") = "9999.ts"%string.
Proof.
  split.
  - apply (proj1 C9_unknown_resource_not_found).
    intros st Hst. vm_compute in Hst. injection Hst as <-.
    split; [vm_compute; discriminate|].
    apply Forall_forall. cbn [St.segments].
    repeat (constructor; [vm_compute; discriminate|]). constructor.
  - apply (proj2 C9_unknown_resource_not_found); [discriminate|reflexivity].
Defined.

(** The claim as worded fails on paths with a trailing slash: [path.Base]
    drops it, so a path that is neither [<mount>/index.m3u8] nor
    [<mount>/<segment-name>] for any mount and any segment of the snapshot
    is answered with the playlist, or with a segment, and not with
    not-found. *)
Lemma C9_trailing_slash_counterexample :
  named_resource (w_pub world_ten) (w_heap world_ten) "/live/index.m3u8/" = false
  /\ (forall mount : string,
         "/live/index.m3u8/"%string <> (mount ++ "/index.m3u8")%string)
  /\ ServeHTTP (w_pub world_ten) (w_heap world_ten) "/live/index.m3u8/"
     = ServePlaylist "application/vnd.apple.mpegurl" (St.playlist state_ten)
  /\ ServeHTTP (w_pub world_ten) (w_heap world_ten) "/live/index.m3u8/" <> NotFound
  /\ named_resource (w_pub world_ten) (w_heap world_ten) "/live/1009.ts/" = false
  /\ ServeHTTP (w_pub world_ten) (w_heap world_ten) "/live/1009.ts/" = ServeSegment 9.
Proof.
  split; [vm_compute; reflexivity|]. split.
  - intros mount E.
    assert (Hs : ends_with "/live/index.m3u8/" "/index.m3u8" = true)
      by (apply ends_with_spec; by exists mount).
    vm_compute in Hs. discriminate.
  - vm_compute. repeat split; discriminate.
Qed.

Lemma Close_heap_lookup (p : Publisher) (h : heap) (c : ptr) :
  (Close p h).2 !! c =
    if bool_decide (c ∈ Pub.segments p ++ Pub.presegs p)
    then Release <$> h !! c else h !! c.
Proof.
  unfold Close. pub_simpl. cbn [snd]. rewrite !release_all_lookup.
  destruct (decide (c ∈ Pub.segments p)) as [HS|HS],
           (decide (c ∈ Pub.presegs p)) as [HP|HP];
    rewrite ?(bool_decide_eq_true_2 _ HS), ?(bool_decide_eq_false_2 _ HS),
      ?(bool_decide_eq_true_2 _ HP), ?(bool_decide_eq_false_2 _ HP).
  - rewrite bool_decide_eq_true_2 by (apply elem_of_app; auto).
    by destruct (h !! c).
  - by rewrite bool_decide_eq_true_2 by (apply elem_of_app; auto).
  - by rewrite bool_decide_eq_true_2 by (apply elem_of_app; auto).
  - by rewrite bool_decide_eq_false_2 by (rewrite elem_of_app; tauto).
Qed.

(** C4, as amended. [Close] publishes the empty snapshot, releases every
    segment of the window and of the precreate queue and no other, clears
    [current], [segments] and [presegs], and a second [Close] changes
    nothing; afterwards every request whose basename is not the playlist
    name is answered not-found. *)
Theorem C4_Close_releases_and_unpublishes (p : Publisher) (h : heap) :
  let p' := (Close p h).1 in
  let h' := (Close p h).2 in
  Pub.state p' = Some (St.mk "" [])
  /\ Pub.current p' = None /\ Pub.segments p' = [] /\ Pub.presegs p' = []
  /\ (forall c, h' !! c =
                if bool_decide (c ∈ Pub.segments p ++ Pub.presegs p)
                then Release <$> h !! c else h !! c)
  /\ Close p' h' = (p', h')
  /\ (forall urlPath : string,
         path_Base urlPath <> "index.m3u8"%string ->
         ServeHTTP p' h' urlPath = NotFound).
Proof.
  intros p' h'. split; [done|]. split; [done|]. split; [done|]. split; [done|].
  split; [apply Close_heap_lookup|]. split.
  - unfold p', h', Close. by destruct p.
  - intros urlPath Hp. apply ServeHTTP_not_found.
    intros st [= <-]. split; [done|]. intros c Hc. by apply elem_of_nil in Hc.
Qed.

Lemma C4_Close_witness :
  ServeHTTP closed_ten.1 closed_ten.2 "/live/1009.ts" = NotFound
  /\ ServeHTTP (w_pub world_ten) (w_heap world_ten) "/live/1009.ts" = ServeSegment 9.
Proof.
  split; [|vm_compute; reflexivity].
  destruct (C4_Close_releases_and_unpublishes (w_pub world_ten) (w_heap world_ten))
    as (_ & _ & _ & _ & _ & _ & Hserve).
  apply Hserve. vm_compute. discriminate.
Defined.

(** The claim as worded fails for the playlist: after [Close] the playlist
    name is answered with the empty snapshot's playlist, not with
    not-found. *)
Lemma C4_playlist_after_Close_counterexample :
  ServeHTTP closed_ten.1 closed_ten.2 "/live/index.m3u8"
  = ServePlaylist "application/vnd.apple.mpegurl" ""
  /\ ServeHTTP closed_ten.1 closed_ten.2 "/live/index.m3u8" <> NotFound.
Proof. vm_compute. split; [reflexivity|discriminate]. Qed.

(** ** The two ways a keyframe goes *)

Section Cases.

Context `{Externals}.

Lemma finalize_current_length (p : Publisher) (h : heap) (start : Z) :
  length (finalize_current p h start) = length h.
Proof.
  unfold finalize_current. destruct (Pub.current p); [|done]. apply length_alter.
Qed.

Lemma newSegment_cases (env : Env) (p : Publisher) (h : heap) (start : Z) :
  (activates env p = false
   /\ newSegment env p h start =
        mkResult (Pub.with_current None (seed_segNum env p))
                 (finalize_current p h start) [] (Some ErrSegment))
  \/ (activates env p = true
      /\ exists (p1 : Publisher) (h1 : heap) (c : ptr) (cells : list segment)
                (sn : Z) (pl : string) (err : option error),
          picked_from p h start p1 h1 c
          /\ let est := targetDuration p (finalize_current p h start) in
             let h2 := alter (activate start est (Pub.dcn p)) c h1 in
             let segs := Pub.segments p ++ [c] in
             let n := Z.to_nat (Z.of_nat (length segs) - keepSegments p est) in
             let ev := take n segs in
             newSegment env p h start =
               mkResult
                 (Pub.mk (Pub.InitialDuration p) (Pub.BufferLength p) (Pub.WorkDir p)
                    (Pub.Prefetch p) (Pub.Precreate p)
                    (drop n segs)
                    (Pub.presegs p1 ++ seq (length h1) (length cells))
                    sn
                    (Nat.iter (length ev) incr64 (Pub.seq p))
                    false
                    (Nat.iter (dcn_count (with_flags h2 ev)) incr64 (Pub.dcnseq p))
                    (Some (St.mk pl (drop n segs ++ Pub.presegs p1)))
                    (Some c) (Pub.muxBuf p) (Pub.mux p) (Pub.muxHdr p))
                 (release_all h2 ev ++ cells) (with_flags h2 ev) err
          /\ Forall (fun s => Seg.hdr s = Pub.muxHdr p /\ Seg.life s = Created) cells
          /\ (length cells
              <= Z.to_nat (Pub.Precreate p - Z.of_nat (length (Pub.presegs p1))))%nat
          /\ (err = None ->
              ~ Z.of_nat (length (Pub.presegs p1) + length cells) < Pub.Precreate p)).
Proof.
  destruct (activates env p) eqn:Hact.
  - right. split; [done|].
    destruct (pick_segment_is_Some env p (finalize_current p h start) Hact)
      as (p1 & h1 & c & Hpick).
    destruct (newSegment_picked env p h start p1 h1 c Hpick)
      as (cells & sn & pl & err & Hnew & Hcells & Hlen & Hexit).
    exists p1, h1, c, cells, sn, pl, err. split; [|done].
    apply pick_segment_Some in Hpick.
    assert (Hseed : Pub.presegs (seed_segNum env p) = Pub.presegs p
                    /\ Pub.muxHdr (seed_segNum env p) = Pub.muxHdr p).
    { unfold seed_segNum. destruct (Pub.segNum p =? 0); by destruct p. }
    destruct Hseed as [Hpre Hhdr]. rewrite Hpre, Hhdr in Hpick.
    destruct Hpick as [(rest & Hp & -> & ->)|(Hp & _ & -> & -> & ->)].
    + left. split; [|done]. rewrite Hp. reflexivity.
    + right. split; [done|].
      split; [change (Pub.presegs (seed_segNum env p) = []); by rewrite Hpre|].
      split; [by rewrite finalize_current_length|]. by eexists.
  - left. split; [done|]. apply newSegment_not_picked. by apply pick_segment_None.
Qed.

End Cases.

(** ** What one [WritePacket] does to the counters and the store *)

Section Steps.

Context `{Externals}.

(** Outside the muxer's buffer, the publisher [WritePacket] leaves is the
    one its keyframe step left. *)
Lemma WritePacket_fields (env : Env) (p : Publisher) (h : heap) (pkt : Packet) :
  let q0 := r_pub (if IsKeyFrame pkt then newSegment env p h (Time pkt)
                   else mkResult p h [] None) in
  let q := r_pub (WritePacket env p h pkt) in
  Pub.InitialDuration q = Pub.InitialDuration q0
  /\ Pub.BufferLength q = Pub.BufferLength q0
  /\ Pub.Precreate q = Pub.Precreate q0
  /\ Pub.segments q = Pub.segments q0
  /\ Pub.presegs q = Pub.presegs q0
  /\ Pub.segNum q = Pub.segNum q0
  /\ Pub.seq q = Pub.seq q0
  /\ Pub.dcn q = Pub.dcn q0
  /\ Pub.dcnseq q = Pub.dcnseq q0
  /\ Pub.state q = Pub.state q0
  /\ Pub.current q = Pub.current q0
  /\ Pub.muxHdr q = Pub.muxHdr q0.
Proof.
  intros q0 q. unfold q, q0.
  destruct (WritePacket_after env p h pkt) as (_ & [->| ->] & _); [done|].
  by destruct (r_pub _).
Qed.

Lemma WritePacket_heap_length (env : Env) (p : Publisher) (h : heap) (pkt : Packet) :
  length (r_heap (WritePacket env p h pkt)) =
  length (r_heap (if IsKeyFrame pkt then newSegment env p h (Time pkt)
                  else mkResult p h [] None)).
Proof.
  destruct (WritePacket_after env p h pkt) as (_ & _ & [->|(c & _ & ->)] & _);
    [done|apply length_alter].
Qed.

Lemma seed_segNum_proj (env : Env) (p : Publisher) :
  Pub.segments (seed_segNum env p) = Pub.segments p
  /\ Pub.presegs (seed_segNum env p) = Pub.presegs p
  /\ Pub.seq (seed_segNum env p) = Pub.seq p
  /\ Pub.dcnseq (seed_segNum env p) = Pub.dcnseq p
  /\ Pub.dcn (seed_segNum env p) = Pub.dcn p
  /\ Pub.state (seed_segNum env p) = Pub.state p
  /\ Pub.muxHdr (seed_segNum env p) = Pub.muxHdr p.
Proof. unfold seed_segNum. destruct (Pub.segNum p =? 0); by destruct p. Qed.

Lemma picked_from_length (p : Publisher) (h : heap) (start : Z)
    (p1 : Publisher) (h1 : heap) (c : ptr) :
  picked_from p h start p1 h1 c ->
  (length (Pub.presegs p1) + 1 + length h = length (Pub.presegs p) + length h1)%nat.
Proof.
  intros [[Hp ->]|(Hp & Hp1 & _ & s0 & -> & _)].
  - rewrite Hp, finalize_current_length. simpl. lia.
  - rewrite Hp, Hp1, length_app, finalize_current_length. simpl. lia.
Qed.

(** One increment of [seq] per evicted segment, one of [dcnseq] per evicted
    segment with the flag; and the store grows by what the window and the
    queue gain beyond the evictions. *)
Lemma WritePacket_counts (env : Env) (p : Publisher) (h : heap) (pkt : Packet) :
  let r := WritePacket env p h pkt in
  Pub.seq (r_pub r) = Nat.iter (length (r_evicted r)) incr64 (Pub.seq p)
  /\ Pub.dcnseq (r_pub r) = Nat.iter (dcn_count (r_evicted r)) incr64 (Pub.dcnseq p)
  /\ (length (r_evicted r) + length (Pub.segments (r_pub r))
      + length (Pub.presegs (r_pub r)) + length h
      = length (Pub.segments p) + length (Pub.presegs p) + length (r_heap r))%nat.
Proof.
  intros r. unfold r.
  destruct (WritePacket_fields env p h pkt)
    as (_ & _ & _ & -> & -> & _ & -> & _ & -> & _).
  rewrite WritePacket_heap_length.
  destruct (WritePacket_after env p h pkt) as (-> & _).
  destruct (IsKeyFrame pkt); [|simpl; lia].
  destruct (newSegment_cases env p h (Time pkt))
    as [(_ & ->)|(_ & p1 & h1 & c & cells & sn & pl & err & Hfrom & -> & _)].
  - cbn [r_pub r_heap r_evicted].
    destruct (seed_segNum_proj env p) as (E1 & E2 & E3 & E4 & _).
    change (Pub.segments (Pub.with_current None (seed_segNum env p)))
      with (Pub.segments (seed_segNum env p)).
    change (Pub.presegs (Pub.with_current None (seed_segNum env p)))
      with (Pub.presegs (seed_segNum env p)).
    change (Pub.seq (Pub.with_current None (seed_segNum env p)))
      with (Pub.seq (seed_segNum env p)).
    change (Pub.dcnseq (Pub.with_current None (seed_segNum env p)))
      with (Pub.dcnseq (seed_segNum env p)).
    rewrite E1, E2, E3, E4, finalize_current_length. simpl. lia.
  - cbn [r_pub r_heap r_evicted Pub.seq Pub.dcnseq Pub.segments Pub.presegs].
    apply picked_from_length in Hfrom.
    rewrite !with_flags_length.
    split; [done|]. split; [done|].
    rewrite !length_app, length_seq, release_all_length, length_alter.
    rewrite length_drop, length_take, !length_app. simpl. lia.
Qed.

End Steps.

(** ** Runs: the counters and the accounting of segments *)

Section Runs.

Context `{Externals}.

Lemma run_snoc (ops : list op) (o : op) (w : world) :
  run (ops ++ [o]) w = step (run ops w) o.
Proof. unfold run. by rewrite foldl_app. Qed.

(** Induction over a run from its last call. *)
Lemma run_ind (P : world -> Prop) (Q : op -> Prop) (w0 : world) :
  P w0 ->
  (forall w o, Q o -> P w -> P (step w o)) ->
  forall ops, Forall Q ops -> P (run ops w0).
Proof.
  intros H0 Hstep ops. induction ops as [|o ops IH] using rev_ind; intros HQ.
  - done.
  - rewrite run_snoc. apply Forall_app in HQ as [HQ Ho].
    apply Hstep; [by inversion Ho|by apply IH].
Qed.

Lemma Forall_True {A} (l : list A) : Forall (fun _ => True) l.
Proof. by apply Forall_forall. Qed.

Lemma step_counted (w : world) (o : op) : counted w -> counted (step w o).
Proof.
  intros [Hs Hd]. unfold counted. destruct o as [res|env pkt| |]; cbn [step].
  - unfold WriteHeader. destruct res; pub_simpl; rewrite app_nil_r; done.
  - destruct (WritePacket_counts env (w_pub w) (w_heap w) pkt) as (Es & Ed & _).
    pub_simpl. rewrite Es, Ed, Hs, Hd.
    rewrite length_app, dcn_count_app, !Nat2Z.inj_add.
    split; apply add64_iter.
  - by pub_simpl.
  - unfold Close. by pub_simpl.
Qed.

Lemma step_accounted (w : world) (o : op) :
  is_Close o = false -> accounted w -> accounted (step w o).
Proof.
  intros Ho Ha. unfold accounted in *. destruct o as [res|env pkt| |]; cbn [step].
  - unfold WriteHeader. destruct res; pub_simpl; rewrite app_nil_r; done.
  - destruct (WritePacket_counts env (w_pub w) (w_heap w) pkt) as (_ & _ & E).
    pub_simpl. rewrite length_app. lia.
  - by pub_simpl.
  - done.
Qed.

Lemma init_counted (p0 : Publisher) :
  Pub.seq p0 = 0 -> Pub.dcnseq p0 = 0 -> counted (init_world p0).
Proof. intros Hs Hd. by split. Qed.

(** The precreate queue stays empty when precreation is disabled. *)
Lemma step_no_precreate (w : world) (o : op) :
  Pub.Precreate (w_pub w) <= 0 /\ Pub.presegs (w_pub w) = [] ->
  Pub.Precreate (w_pub (step w o)) <= 0 /\ Pub.presegs (w_pub (step w o)) = [].
Proof.
  intros [Hp He]. destruct o as [res|env pkt| |]; cbn [step].
  - unfold WriteHeader. by destruct res; pub_simpl.
  - pub_simpl.
    destruct (WritePacket_fields env (w_pub w) (w_heap w) pkt)
      as (_ & _ & -> & _ & -> & _).
    destruct (IsKeyFrame pkt); [|done].
    destruct (newSegment_cases env (w_pub w) (w_heap w) (Time pkt))
      as [(_ & ->)|(_ & p1 & h1 & c & cells & sn & pl & err & Hfrom & -> & _ & Hlen & _)].
    + cbn [r_pub]. destruct (seed_segNum_fields env (w_pub w)) as (sn & -> & _).
      by destruct (w_pub w).
    + pub_simpl. split; [done|].
      assert (Hp1 : Pub.presegs p1 = []).
      { destruct Hfrom as [[E _]|(_ & E & _)]; [congruence|done]. }
      rewrite Hp1 in *. simpl in Hlen.
      assert (Hc : length cells = 0%nat) by lia.
      by destruct cells.
  - by pub_simpl.
  - unfold Close. by pub_simpl.
Qed.

(** C3. Trimming evicts the front of the window: each evicted segment adds
    one to [seq], adds one to [dcnseq] exactly when its discontinuity flag
    is set, and is Released, and no other segment is touched.  So after any
    run of a fresh publisher [seq] is the number of segments ever evicted
    and [dcnseq] the number of those that carried the flag (as [int64], so
    modulo [2^64]). *)
Theorem C3_seq_and_dcnseq_count_evictions :
  (forall (p : Publisher) (h : heap) (segmentLen : Z),
      let n := Z.to_nat (Z.of_nat (length (Pub.segments p)) - keepSegments p segmentLen) in
      let ev := take n (Pub.segments p) in
      let p' := (trimSegments p h segmentLen).1.1 in
      let h' := (trimSegments p h segmentLen).1.2 in
      let log := (trimSegments p h segmentLen).2 in
      log = with_flags h ev
      /\ Pub.segments p' = drop n (Pub.segments p)
      /\ Pub.seq p' = Nat.iter (length log) incr64 (Pub.seq p)
      /\ Pub.dcnseq p' = Nat.iter (dcn_count log) incr64 (Pub.dcnseq p)
      /\ (forall c, h' !! c = if bool_decide (c ∈ ev) then Release <$> h !! c
                              else h !! c))
  /\ (forall (iD bL : Z) (wd : string) (pf : bool) (pc : Z) (ops : list op),
         let w := run ops (init_world (new_Publisher iD bL wd pf pc)) in
         Pub.seq (w_pub w) = wrap64 (Z.of_nat (length (w_log w)))
         /\ Pub.dcnseq (w_pub w) = wrap64 (Z.of_nat (dcn_count (w_log w)))
         /\ (Z.of_nat (length (w_log w)) <= max_int64 ->
             Pub.seq (w_pub w) = Z.of_nat (length (w_log w))
             /\ Pub.dcnseq (w_pub w) = Z.of_nat (dcn_count (w_log w)))).
Proof.
  split.
  - intros p h segmentLen n ev p' h' log. unfold p', h', log.
    rewrite trimSegments_eq. fold n. fold ev. cbn [fst snd]. pub_simpl.
    rewrite with_flags_length.
    split; [done|]. split; [done|]. split; [done|]. split; [done|].
    intros c. apply release_all_lookup.
  - intros iD bL wd pf pc ops w.
    assert (Hc : counted w).
    { unfold w. apply (run_ind counted (fun _ => True)).
      - by apply init_counted.
      - intros w1 o _. apply step_counted.
      - apply Forall_True. }
    destruct Hc as [Hs Hd]. split; [done|]. split; [done|].
    intros Hfit. rewrite Hs, Hd.
    assert (Hle : (dcn_count (w_log w) <= length (w_log w))%nat).
    { unfold dcn_count. apply filter_length_le. }
    rewrite !wrap64_id; [done| |]; unfold min_int64, max_int64 in *; lia.
Qed.

(** C8, as amended. Until [Close], every segment ever created is evicted,
    in the window or in the precreate queue: [seq + len(segments) +
    len(presegs)] is the number of segments created; with precreation
    disabled the queue is empty and [seq + len(segments)] is that number. *)
Theorem C8_segments_accounted
    (iD bL : Z) (wd : string) (pf : bool) (pc : Z) (ops : list op) :
  Forall (fun o => is_Close o = false) ops ->
  let w := run ops (init_world (new_Publisher iD bL wd pf pc)) in
  Z.of_nat (length (w_heap w)) <= max_int64 ->
  Pub.seq (w_pub w) + Z.of_nat (length (Pub.segments (w_pub w)))
    + Z.of_nat (length (Pub.presegs (w_pub w))) = Z.of_nat (length (w_heap w))
  /\ (pc <= 0 ->
      Pub.seq (w_pub w) + Z.of_nat (length (Pub.segments (w_pub w)))
      = Z.of_nat (length (w_heap w))).
Proof.
  intros Hops w Hfit.
  assert (Ha : accounted w).
  { unfold w. apply (run_ind accounted (fun o => is_Close o = false)); [done| |done].
    intros w1 o Ho. by apply step_accounted. }
  assert (Hc : counted w).
  { unfold w. apply (run_ind counted (fun _ => True)).
    - by apply init_counted.
    - intros w1 o _. apply step_counted.
    - apply Forall_True. }
  destruct Hc as [Hs _]. unfold accounted in Ha.
  assert (Hseq : Pub.seq (w_pub w) = Z.of_nat (length (w_log w))).
  { rewrite Hs. apply wrap64_id. unfold min_int64, max_int64 in *. lia. }
  split; [lia|].
  intros Hpc.
  assert (Hq : Pub.Precreate (w_pub w) <= 0 /\ Pub.presegs (w_pub w) = []).
  { unfold w.
    apply (run_ind (fun w => Pub.Precreate (w_pub w) <= 0 /\ Pub.presegs (w_pub w) = [])
             (fun _ => True)).
    - done.
    - intros w1 o _. apply step_no_precreate.
    - apply Forall_True. }
  destruct Hq as [_ Hq]. rewrite Hq in Ha. simpl in Ha. lia.
Qed.

End Runs.

Lemma C3_eviction_count_witness :
  Pub.seq (w_pub world_eleven) = Z.of_nat (length (w_log world_eleven))
  /\ Pub.dcnseq (w_pub world_eleven) = Z.of_nat (dcn_count (w_log world_eleven)).
Proof.
  refine (proj2 (proj2 (proj2 (@C3_seq_and_dcnseq_count_evictions sample_externals)
                          0 (2 * Second) ""%string false 0
                          (OpWriteHeader (Some "HDR"%string) :: keyframes 11))) _).
  vm_compute. discriminate.
Defined.

Lemma C8_accounted_witness :
  Pub.seq (w_pub world_precreate)
    + Z.of_nat (length (Pub.segments (w_pub world_precreate)))
    + Z.of_nat (length (Pub.presegs (w_pub world_precreate)))
  = Z.of_nat (length (w_heap world_precreate)).
Proof.
  refine (proj1 (@C8_segments_accounted sample_externals 0 0 ""%string false 1
                   [OpWriteHeader (Some "HDR"%string); OpWritePacket env_ok (key_at 0)]
                   _ _)).
  - repeat constructor.
  - vm_compute. discriminate.
Defined.

(** The claim as worded fails with precreation: after one keyframe with a
    queue of depth one, two segments have been created while
    [seq + len(segments)] is one. *)
Lemma C8_precreated_counterexample :
  Pub.seq (w_pub world_precreate)
    + Z.of_nat (length (Pub.segments (w_pub world_precreate))) = 1
  /\ Z.of_nat (length (w_heap world_precreate)) = 2
  /\ Pub.seq (w_pub world_precreate)
       + Z.of_nat (length (Pub.segments (w_pub world_precreate)))
     <> Z.of_nat (length (w_heap world_precreate)).
Proof. vm_compute. repeat split; discriminate. Qed.

(** ** Headers and discontinuity flags across the store *)

Lemma fmap_alter_inv {B} (f : segment -> B) (g : segment -> segment)
    (i : nat) (l : list segment) :
  (forall s, f (g s) = f s) -> f <$> alter g i l = f <$> l.
Proof.
  intros Hfg. rewrite (list_fmap_alter f g id).
  - by apply list_alter_id.
  - apply Forall_forall. intros s _. apply Hfg.
Qed.

Lemma release_all_fmap {B} (f : segment -> B) (h : heap) (l : list ptr) :
  (forall s, f (Release s) = f s) -> f <$> release_all h l = f <$> h.
Proof.
  intros Hf. revert h. induction l as [|c l IH]; intros h; [done|].
  simpl. rewrite IH. by apply fmap_alter_inv.
Qed.

Lemma finalize_current_fmap {B} (f : segment -> B) (p : Publisher) (h : heap) (start : Z) :
  (forall s, f (Finalize start s) = f s) ->
  f <$> finalize_current p h start = f <$> h.
Proof.
  intros Hf. unfold finalize_current. destruct (Pub.current p); [|done].
  by apply fmap_alter_inv.
Qed.

Lemma fmap_cells_replicate {B} (f : segment -> B) (b : B) (cells : list segment) :
  Forall (fun s => f s = b) cells -> f <$> cells = replicate (length cells) b.
Proof.
  induction 1 as [|s cells Hs _ IH]; [done|]. by rewrite fmap_cons, Hs, IH.
Qed.

Section Headers.

Context `{Externals}.

Lemma WritePacket_heap_fmap {B} (f : segment -> B)
    (env : Env) (p : Publisher) (h : heap) (pkt : Packet) :
  (forall b s, f (seg_Write b s) = f s) ->
  f <$> r_heap (WritePacket env p h pkt) =
  f <$> r_heap (if IsKeyFrame pkt then newSegment env p h (Time pkt)
                else mkResult p h [] None).
Proof.
  intros Hf.
  destruct (WritePacket_after env p h pkt) as (_ & _ & [->|(c & _ & ->)] & _);
    [done|by apply fmap_alter_inv].
Qed.




End Headers.


(** ** C6: the pending discontinuity *)

Section Discontinuity.

Context `{Externals}.

Lemma step_wf_presegs (w : world) (o : op) :
  wf_presegs w -> wf_presegs (step w o).
Proof.
  unfold wf_presegs. intros Hw. destruct o as [res|env pkt| |]; cbn [step].
  - unfold WriteHeader. by destruct res; pub_simpl.
  - pub_simpl. rewrite WritePacket_heap_length.
    destruct (WritePacket_fields env (w_pub w) (w_heap w) pkt)
      as (_ & _ & _ & _ & -> & _).
    destruct (IsKeyFrame pkt); [|done].
    destruct (newSegment_cases env (w_pub w) (w_heap w) (Time pkt))
      as [(_ & ->)|(_ & p1 & h1 & c & cells & sn & pl & err & Hfrom & -> & _)].
    + cbn [r_pub r_heap]. rewrite finalize_current_length.
      change (Pub.presegs (Pub.with_current None (seed_segNum env (w_pub w))))
        with (Pub.presegs (seed_segNum env (w_pub w))).
      destruct (seed_segNum_proj env (w_pub w)) as (_ & -> & _). done.
    + pub_simpl. rewrite length_app, release_all_length, length_alter.
      apply Forall_app. split.
      * assert (Hp1 : Forall (fun c => (c < length h1)%nat) (Pub.presegs p1)).
        { destruct Hfrom as [[Hp ->]|(_ & -> & _)]; [|done].
          rewrite Hp in Hw. rewrite finalize_current_length. by inversion Hw. }
        eapply Forall_impl; [exact Hp1|]. intros c' Hc'. simpl in *. lia.
      * apply Forall_seq. intros j Hj. lia.
  - by pub_simpl.
  - unfold Close. pub_simpl. constructor.
Qed.

(** An activation gives the pending flag to the segment it activates,
    clears it, and leaves the flags of all other segments as they were. *)
Lemma activation_dcn (env : Env) (p : Publisher) (h : heap) (pkt : Packet) :
  IsKeyFrame pkt = true -> activates env p = true ->
  Forall (fun c => (c < length h)%nat) (Pub.presegs p) ->
  let r := WritePacket env p h pkt in
  exists c : ptr,
    Pub.current (r_pub r) = Some c
    /\ Seg.dcn <$> r_heap r !! c = Some (Pub.dcn p)
    /\ Pub.dcn (r_pub r) = false
    /\ forall c', c' <> c -> (c' < length h)%nat ->
                  Seg.dcn <$> r_heap r !! c' = Seg.dcn <$> h !! c'.
Proof.
  intros Hkey Hact Hwf r. unfold r.
  destruct (WritePacket_fields env p h pkt)
    as (_ & _ & _ & _ & _ & _ & _ & -> & _ & _ & -> & _).
  setoid_rewrite <- list_lookup_fmap.
  rewrite WritePacket_heap_fmap by done. rewrite Hkey.
  destruct (newSegment_cases env p h (Time pkt))
    as [(Hno & _)|(_ & p1 & h1 & c & cells & sn & pl & err & Hfrom & -> & Hcells & _)];
    [congruence|].
  exists c. pub_simpl. split; [done|].
  rewrite fmap_app, release_all_fmap by done.
  rewrite (list_fmap_alter Seg.dcn _ (fun _ => Pub.dcn p))
    by (apply Forall_forall; by intros s _).
  assert (Hc : (c < length h1)%nat
               /\ forall c', (c' < length h)%nat ->
                             (Seg.dcn <$> h1) !! c' = (Seg.dcn <$> h) !! c').
  { destruct Hfrom as [[Hp ->]|(_ & _ & -> & s0 & -> & _)].
    - rewrite finalize_current_length, finalize_current_fmap by done.
      rewrite Hp in Hwf. split; [by inversion Hwf|done].
    - rewrite length_app, finalize_current_length. simpl. split; [lia|].
      intros c' Hc'. rewrite fmap_app, finalize_current_fmap by done.
      apply lookup_app_l. by rewrite length_fmap. }
  destruct Hc as [Hc Hold].
  split; [|split; [done|]].
  - rewrite lookup_app_l by (by rewrite length_alter, length_fmap).
    rewrite list_lookup_alter_eq, list_lookup_fmap.
    destruct (lookup_lt_is_Some_2 h1 c Hc) as [s ->]. done.
  - intros c' Hne Hc'.
    assert (Hlen : (length h <= length h1)%nat).
    { destruct Hfrom as [[_ ->]|(_ & _ & _ & s0 & -> & _)];
        rewrite ?length_app, finalize_current_length; lia. }
    rewrite lookup_app_l by (rewrite length_alter, length_fmap; lia).
    rewrite list_lookup_alter_ne by done. by apply Hold.
Qed.

Lemma step_keeps_dcn_clear (w : world) (o : op) :
  is_Discontinuity o = false -> Pub.dcn (w_pub w) = false ->
  Pub.dcn (w_pub (step w o)) = false.
Proof.
  intros Ho Hd. destruct o as [res|env pkt| |]; cbn [step]; pub_simpl.
  - unfold WriteHeader. by destruct res; pub_simpl.
  - destruct (WritePacket_fields env (w_pub w) (w_heap w) pkt)
      as (_ & _ & _ & _ & _ & _ & _ & -> & _).
    destruct (IsKeyFrame pkt); [|done].
    destruct (newSegment_cases env (w_pub w) (w_heap w) (Time pkt))
      as [(_ & ->)|(_ & p1 & h1 & c & cells & sn & pl & err & _ & -> & _)].
    + cbn [r_pub].
      change (Pub.dcn (Pub.with_current None (seed_segNum env (w_pub w))))
        with (Pub.dcn (seed_segNum env (w_pub w))).
      destruct (seed_segNum_proj env (w_pub w)) as (_ & _ & _ & _ & -> & _). done.
    + done.
  - done.
  - unfold Close. by pub_simpl.
Qed.

Lemma step_keeps_dcn_pending (w : world) (o : op) :
  is_activation w o = false ->
  Pub.dcn (w_pub (step w o)) = Pub.dcn (w_pub w) || is_Discontinuity o.
Proof.
  intros Ho.
  destruct o as [res|env pkt| |]; cbn [step is_Discontinuity is_activation] in *;
    pub_simpl; rewrite ?orb_false_r, ?orb_true_r.
  - unfold WriteHeader. by destruct res; pub_simpl.
  - destruct (WritePacket_fields env (w_pub w) (w_heap w) pkt)
      as (_ & _ & _ & _ & _ & _ & _ & -> & _).
    destruct (IsKeyFrame pkt); [|done]. simpl in Ho.
    destruct (newSegment_cases env (w_pub w) (w_heap w) (Time pkt))
      as [(_ & ->)|(Ha & _)]; [|congruence].
    cbn [r_pub].
    change (Pub.dcn (Pub.with_current None (seed_segNum env (w_pub w))))
      with (Pub.dcn (seed_segNum env (w_pub w))).
    by destruct (seed_segNum_proj env (w_pub w)) as (_ & _ & _ & _ & -> & _).
  - done.
  - unfold Close. by pub_simpl.
Qed.

Lemma run_wf_presegs (p0 : Publisher) (ops : list op) :
  Pub.presegs p0 = [] -> wf_presegs (run ops (init_world p0)).
Proof.
  intros Hp. apply (run_ind wf_presegs (fun _ => True)).
  - unfold wf_presegs. simpl. rewrite Hp. constructor.
  - intros w o _. apply step_wf_presegs.
  - apply Forall_True.
Qed.

(** C6. In any state a fresh publisher can reach: [Discontinuity] sets the
    pending flag and changes nothing else, no segment in particular; the
    next call that activates a segment hands the pending flag to that
    segment, clears it, and leaves the flags of all other segments alone;
    no other call sets the flag, so an activation that follows another
    with no [Discontinuity] in between activates a segment whose flag is
    clear; and a call that activates no segment leaves the pending flag as
    it found it, so a flag that is set waits for the next activation. *)
Theorem C6_discontinuity_marks_next_activation_only
    (iD bL : Z) (wd : string) (pf : bool) (pc : Z) (ops : list op) :
  let w := run ops (init_world (new_Publisher iD bL wd pf pc)) in
  step w OpDiscontinuity = mkWorld (Pub.with_dcn true (w_pub w)) (w_heap w) (w_log w)
  /\ (forall env pkt,
         IsKeyFrame pkt = true -> activates env (w_pub w) = true ->
         let r := WritePacket env (w_pub w) (w_heap w) pkt in
         exists c : ptr,
           Pub.current (r_pub r) = Some c
           /\ Seg.dcn <$> r_heap r !! c = Some (Pub.dcn (w_pub w))
           /\ Pub.dcn (r_pub r) = false
           /\ forall c', c' <> c -> (c' < length (w_heap w))%nat ->
                         Seg.dcn <$> r_heap r !! c' = Seg.dcn <$> w_heap w !! c')
  /\ (forall o, is_Discontinuity o = false -> Pub.dcn (w_pub w) = false ->
                Pub.dcn (w_pub (step w o)) = false)
  /\ (forall env1 pkt1 mid env2 pkt2,
         IsKeyFrame pkt1 = true -> activates env1 (w_pub w) = true ->
         Forall (fun o => is_Discontinuity o = false) mid ->
         let w2 := run mid (step w (OpWritePacket env1 pkt1)) in
         IsKeyFrame pkt2 = true -> activates env2 (w_pub w2) = true ->
         let r := WritePacket env2 (w_pub w2) (w_heap w2) pkt2 in
         exists c : ptr,
           Pub.current (r_pub r) = Some c
           /\ Seg.dcn <$> r_heap r !! c = Some false)
  /\ (forall o, is_activation w o = false ->
                Pub.dcn (w_pub (step w o)) = Pub.dcn (w_pub w) || is_Discontinuity o).
Proof.
  intros w.
  assert (Hwf : wf_presegs w) by (by apply run_wf_presegs).
  split; [done|]. split; [|split; [|split]].
  - intros env pkt Hkey Hact. by apply activation_dcn.
  - apply step_keeps_dcn_clear.
  - intros env1 pkt1 mid env2 pkt2 Hk1 Ha1 Hmid w2 Hk2 Ha2 r.
    assert (Hw2 : wf_presegs w2 /\ Pub.dcn (w_pub w2) = false).
    { unfold w2.
      apply (run_ind (fun w' => wf_presegs w' /\ Pub.dcn (w_pub w') = false)
               (fun o => is_Discontinuity o = false)); [| |done].
      - split; [by apply step_wf_presegs|].
        cbn [step w_pub].
        by destruct (activation_dcn env1 (w_pub w) (w_heap w) pkt1 Hk1 Ha1 Hwf)
          as (c & _ & _ & Hd & _).
      - intros w' o Ho [Hw' Hd]. split; [by apply step_wf_presegs|].
        by apply step_keeps_dcn_clear. }
    destruct Hw2 as [Hw2 Hd2].
    destruct (activation_dcn env2 (w_pub w2) (w_heap w2) pkt2 Hk2 Ha2 Hw2)
      as (c & Hc & Hf & _).
    exists c. split; [done|]. fold r in Hf. by rewrite Hf, Hd2.
  - apply step_keeps_dcn_pending.
Qed.

End Discontinuity.

Lemma C6_discontinuity_witness :
  Pub.dcn (w_pub world_dcn) = true
  /\ exists c : ptr,
      Pub.current (r_pub (@WritePacket sample_externals env_ok (w_pub world_dcn)
                            (w_heap world_dcn) (key_at Second))) = Some c
      /\ Seg.dcn <$> r_heap (@WritePacket sample_externals env_ok (w_pub world_dcn)
                               (w_heap world_dcn) (key_at Second)) !! c
         = Some (Pub.dcn (w_pub world_dcn)).
Proof.
  split; [vm_compute; reflexivity|].
  destruct (proj1 (proj2 (@C6_discontinuity_marks_next_activation_only sample_externals
                            0 0 ""%string false 0
                            [OpWriteHeader (Some "HDR"%string);
                             OpWritePacket env_ok (key_at 0); OpDiscontinuity]))
              env_ok (key_at Second))
    as (c & Hc & Hf & _).
  - reflexivity.
  - vm_compute. reflexivity.
  - exists c. split; [exact Hc|exact Hf].
Defined.

(** ** C5: a failed [WritePacket] *)

Lemma last_drop_lt {A} (l : list A) (n : nat) :
  (n < length l)%nat -> last (drop n l) = last l.
Proof.
  intros Hn. rewrite !last_lookup, lookup_drop, length_drop. f_equal. lia.
Qed.

Section Failure.

Context `{Externals}.

(** C5, as amended. When [WritePacket] returns an error for a packet that
    is not a keyframe, only the muxer's buffer has changed: the counters,
    the window, the queue, the published state and the store are as before.
    When it returns one for a keyframe because no segment could be
    constructed to activate, [seq], [dcnseq], the window, the queue and the
    published state are as before, and so is [segNum] unless it was still
    zero.  When it returns one for a keyframe that got a segment to
    activate, the error comes after the activation and the publication:
    that segment is the current one, the newest of the window, and is
    listed in the published snapshot. *)
Theorem C5_failed_WritePacket_leaves_counters
    (env : Env) (p : Publisher) (h : heap) (pkt : Packet) :
  let r := WritePacket env p h pkt in
  r_err r <> None ->
  (IsKeyFrame pkt = false ->
   r_heap r = h /\ r_evicted r = []
   /\ r_pub r = Pub.with_mux true (Pub.with_muxBuf (mux_bytes env) p))
  /\ (IsKeyFrame pkt = true -> activates env p = false ->
      r_err r = Some ErrSegment /\ r_evicted r = []
      /\ Pub.seq (r_pub r) = Pub.seq p /\ Pub.dcnseq (r_pub r) = Pub.dcnseq p
      /\ Pub.state (r_pub r) = Pub.state p
      /\ Pub.segments (r_pub r) = Pub.segments p
      /\ Pub.presegs (r_pub r) = Pub.presegs p
      /\ (Pub.segNum p <> 0 -> Pub.segNum (r_pub r) = Pub.segNum p))
  /\ (IsKeyFrame pkt = true -> activates env p = true ->
      exists (c : ptr) (st : hlsState),
        Pub.current (r_pub r) = Some c
        /\ last (Pub.segments (r_pub r)) = Some c
        /\ Pub.state (r_pub r) = Some st
        /\ c ∈ St.segments st).
Proof.
  intros r Herr. split; [|split].
  - intros Hkey. unfold r in *. unfold WritePacket in *. rewrite Hkey in *.
    cbn [r_err r_pub r_heap r_evicted] in *.
    destruct (Pub.current p) as [c|]; [|done].
    destruct (mux_ok env), (write_ok env); cbn [r_err r_pub r_heap r_evicted] in *;
      done.
  - intros Hkey Hact. unfold r in *. unfold WritePacket in *. rewrite Hkey in *.
    rewrite newSegment_not_picked in * by (by apply pick_segment_None).
    cbn [r_err r_pub r_heap r_evicted] in *.
    destruct (seed_segNum_fields env p) as (sn & -> & Hsn).
    split; [done|]. split; [done|]. pub_simpl.
    repeat (split; [done|]). exact Hsn.
  - intros Hkey Hact. clear Herr.
    destruct (WritePacket_fields env p h pkt)
      as (_ & _ & _ & Es & _ & _ & _ & _ & _ & Est & Ec & _).
    rewrite Hkey in Es, Est, Ec. fold r in Es, Est, Ec.
    destruct (newSegment_cases env p h (Time pkt))
      as [(Ha & _)|(_ & p1 & h1 & c & cells & sn & pl & err & _ & Hnew & _)];
      [congruence|].
    cbv zeta in Hnew. rewrite Hnew in Es, Est, Ec. clear Hnew.
    cbn [r_pub Pub.segments Pub.state Pub.current] in Es, Est, Ec.
    set (segs := Pub.segments p ++ [c]) in *.
    set (n := Z.to_nat (Z.of_nat (length segs) - keepSegments p _)) in *.
    assert (Hn : (n < length segs)%nat).
    { pose proof (keepSegments_ge_10 p
                    (targetDuration p (finalize_current p h (Time pkt)))).
      unfold n, segs. rewrite length_app. simpl. lia. }
    assert (Hlast : last (drop n segs) = Some c).
    { rewrite last_drop_lt by done. unfold segs. apply last_snoc. }
    eexists c, _. rewrite Ec, Es, Est.
    split; [done|]. split; [done|]. split; [reflexivity|].
    cbn [St.segments]. apply elem_of_app. left. by apply last_Some_elem_of.
Qed.

End Failure.

Lemma C5_failed_delta_witness :
  r_heap (@WritePacket sample_externals env_muxfail (w_pub world_ten)
            (w_heap world_ten) (delta_at (10 * Second))) = w_heap world_ten
  /\ r_pub (@WritePacket sample_externals env_muxfail (w_pub world_ten)
              (w_heap world_ten) (delta_at (10 * Second)))
     = Pub.with_mux true (Pub.with_muxBuf (mux_bytes env_muxfail) (w_pub world_ten)).
Proof.
  destruct (@C5_failed_WritePacket_leaves_counters sample_externals env_muxfail
              (w_pub world_ten) (w_heap world_ten) (delta_at (10 * Second)))
    as [Hdelta _].
  - vm_compute. discriminate.
  - destruct (Hdelta eq_refl) as (Hh & _ & Hp). split; [exact Hh|exact Hp].
Defined.

(** The claim as worded fails on a keyframe: the segment is started before
    the packet is muxed, so when the muxer rejects the packet the error
    comes back after [seq] and [segNum] have advanced and a new snapshot has
    been published. *)
Lemma C5_keyframe_error_counterexample :
  r_err result_muxfail = Some ErrMuxPacket
  /\ Pub.seq (w_pub world_ten) = 0 /\ Pub.seq (r_pub result_muxfail) = 1
  /\ Pub.segNum (w_pub world_ten) = 1010 /\ Pub.segNum (r_pub result_muxfail) = 1011
  /\ Pub.state (r_pub result_muxfail) <> Pub.state (w_pub world_ten).
Proof. vm_compute. repeat split; discriminate. Qed.

(** * Further properties of the publisher *)

(** ** The target duration *)

Lemma round_seconds_mono (a b : Z) : a <= b -> round_seconds a <= round_seconds b.
Proof.
  intros Hab. unfold round_seconds. change (Second / 2) with 500000000.
  assert (Hq : (a + 500000000) / Second * Second <= (b + 500000000) / Second * Second).
  { apply Z.mul_le_mono_nonneg_r; [unfold Second; lia|].
    apply Z.div_le_mono; [unfold Second|]; lia. }
  destruct (Z.leb_spec ((a + 500000000) / Second * Second) max_int64),
           (Z.leb_spec ((b + 500000000) / Second * Second) max_int64); lia.
Qed.

(** X1. [targetDuration] never returns zero, whatever the publisher holds, so
    the division in [trimSegments] is always defined; and it is positive
    when [InitialDuration] is not negative. *)
Theorem X1_targetDuration_never_zero (p : Publisher) (h : heap) :
  targetDuration p h <> 0
  /\ (int64_durs h -> 0 <= Pub.InitialDuration p -> 0 < targetDuration p h).
Proof. split; [apply targetDuration_nonzero|apply targetDuration_pos]. Qed.

Lemma X1_targetDuration_witness : 0 < targetDuration pub_64 heap_64.
Proof.
  apply (proj2 (X1_targetDuration_never_zero pub_64 heap_64)).
  - int64_durs_by_computation.
  - vm_compute. discriminate.
Defined.

(** [Round] of a negative duration is not positive. *)
Lemma Duration_Round_neg (d : Z) :
  min_int64 <= d < 0 -> Duration_Round d Second <= 0.
Proof.
  intros Hd. unfold Duration_Round.
  destruct (Z.leb_spec Second 0) as [HS|_]; [unfold Second in HS; lia|].
  destruct (Z.ltb_spec d 0) as [_|?]; [|lia].
  assert (Hrem : 0 <= - Z.rem d Second <= - d /\ - Z.rem d Second < 1000000000).
  { assert (E : Z.rem d Second = - ((- d) mod Second)).
    { rewrite <- (Z.opp_involutive d) at 1.
      rewrite Z.rem_opp_l', Z.rem_mod_nonneg by (unfold Second; lia). done. }
    pose proof (Z.mod_pos_bound (- d) Second ltac:(reflexivity)).
    pose proof (Z.mod_le (- d) Second ltac:(lia) ltac:(reflexivity)).
    unfold Second in *. lia. }
  assert (Hw : wrap64 (- Z.rem d Second) = - Z.rem d Second).
  { apply wrap64_id. unfold min_int64, max_int64 in *. lia. }
  rewrite Hw.
  destruct (lessThanHalf (- Z.rem d Second) Second).
  - unfold add64. rewrite wrap64_id; unfold min_int64, max_int64 in *; lia.
  - destruct (Z.ltb_spec (wrap64 (d - Second + - Z.rem d Second)) d).
    + lia.
    + unfold minDuration, min_int64. lia.
Qed.

(** X2. The target duration covers every segment of the window: a windowed
    segment's duration, rounded to the nearest second as [Round] does, is at
    most [targetDuration] (for a non-negative [InitialDuration]). *)
Theorem X2_targetDuration_covers_window (p : Publisher) (h : heap) (c : ptr) :
  int64_durs h -> 0 <= Pub.InitialDuration p ->
  c ∈ Pub.segments p ->
  Duration_Round (Seg.dur (deref h c)) Second <= targetDuration p h.
Proof.
  intros Hh Hi Hc.
  pose proof (deref_dur_int64 h c Hh) as Hr.
  destruct (Z.lt_ge_cases (Seg.dur (deref h c)) 0) as [Hd|Hd].
  { pose proof (Duration_Round_neg (Seg.dur (deref h c)) ltac:(lia)).
    pose proof (targetDuration_pos p h Hh Hi). lia. }
  rewrite Duration_Round_nonneg by lia.
  pose proof (window_max_dur_upper h (Pub.segments p) c Hc) as Hm.
  apply round_seconds_mono in Hm.
  rewrite (targetDuration_round p h Hh). cbv zeta.
  pose proof (round_seconds_nonneg _ (window_max_dur_nonneg h (Pub.segments p))).
  destruct (Z.eqb_spec (round_seconds (window_max_dur h (Pub.segments p))) 0) as [E|E].
  - destruct (Z.eqb_spec (Pub.InitialDuration p) 0); [unfold Second|]; lia.
  - lia.
Qed.

Lemma X2_covers_witness :
  Duration_Round (Seg.dur (deref heap_64 0%nat)) Second <= targetDuration pub_64 heap_64.
Proof.
  apply X2_targetDuration_covers_window.
  - int64_durs_by_computation.
  - vm_compute. discriminate.
  - apply elem_of_cons. by left.
Defined.

(** ** Trimming *)

(** X3. A window of at most ten segments is never trimmed: whatever the
    buffer length and the estimate, [trimSegments] changes nothing. *)
Theorem X3_small_window_never_trimmed (p : Publisher) (h : heap) (segmentLen : Z) :
  (length (Pub.segments p) <= 10)%nat ->
  trimSegments p h segmentLen = (p, h, []).
Proof.
  intros Hlen. unfold trimSegments.
  pose proof (keepSegments_ge_10 p segmentLen).
  destruct (Z.leb_spec (Z.of_nat (length (Pub.segments p)) - keepSegments p segmentLen) 0);
    [done|lia].
Qed.

Lemma X3_small_window_witness :
  trimSegments (w_pub world_precreate) (w_heap world_precreate) Second
  = (w_pub world_precreate, w_heap world_precreate, []).
Proof. apply X3_small_window_never_trimmed. vm_compute. lia. Defined.

(** X4. [trimSegments] leaves a suffix of the window that holds at least ten
    segments, or all of them when there were fewer; so the newest segment is
    never evicted. *)
Theorem X4_trim_keeps_newest_ten (p : Publisher) (h : heap) (segmentLen : Z) :
  let p' := (trimSegments p h segmentLen).1.1 in
  (exists n : nat, Pub.segments p' = drop n (Pub.segments p))
  /\ Z.min 10 (Z.of_nat (length (Pub.segments p)))
     <= Z.of_nat (length (Pub.segments p'))
  /\ last (Pub.segments p') = last (Pub.segments p).
Proof.
  intros p'. unfold p'. rewrite trimSegments_eq. cbn [fst]. pub_simpl.
  pose proof (keepSegments_ge_10 p segmentLen) as Hk.
  set (n := Z.to_nat (Z.of_nat (length (Pub.segments p)) - keepSegments p segmentLen)).
  split; [by exists n|]. split.
  - rewrite length_drop. lia.
  - destruct (Pub.segments p) as [|c l] eqn:E; [by rewrite drop_nil|].
    apply last_drop_lt. simpl in *. lia.
Qed.

(** X5. Trimming twice is trimming once: after [trimSegments] a second call
    with the same estimate evicts nothing. *)
Theorem X5_trim_idempotent (p : Publisher) (h : heap) (segmentLen : Z) :
  let p' := (trimSegments p h segmentLen).1.1 in
  let h' := (trimSegments p h segmentLen).1.2 in
  trimSegments p' h' segmentLen = (p', h', []).
Proof.
  intros p' h'.
  pose proof (trimSegments_eq p h segmentLen) as E. cbv zeta in E.
  set (n := Z.to_nat (Z.of_nat (length (Pub.segments p)) - keepSegments p segmentLen))
    in E.
  assert (Hk : keepSegments p' segmentLen = keepSegments p segmentLen).
  { apply keepSegments_ext. unfold p'. by rewrite E. }
  assert (Hs : Pub.segments p' = drop n (Pub.segments p)).
  { unfold p'. by rewrite E. }
  unfold trimSegments. rewrite Hk, Hs, length_drop.
  pose proof (keepSegments_ge_10 p segmentLen).
  destruct (Z.leb_spec (Z.of_nat (length (Pub.segments p) - n)
                        - keepSegments p segmentLen) 0); [done|lia].
Qed.

(** ** Dispatch of requests *)

Lemma after_last_slash_no_slash (s : string) : has_slash (after_last_slash s) = false.
Proof.
  induction s as [|c s IH]; [done|]. simpl.
  destruct (has_slash s) eqn:Hs; [done|].
  destruct (is_slash c) eqn:Hc; [done|]. simpl. by rewrite Hc, Hs.
Qed.

(** A basename is never empty, and has no slash unless it is the root. *)
Lemma path_Base_shape (path : string) :
  path_Base path <> EmptyString
  /\ (has_slash (path_Base path) = false \/ path_Base path = "/"%string).
Proof.
  unfold path_Base. destruct path as [|c s]; [split; [done|by left]|].
  pose proof (after_last_slash_no_slash (strip_trailing_slashes (String c s))) as Hn.
  destruct (after_last_slash (strip_trailing_slashes (String c s)));
    [split; [done|by right]|split; [done|by left]].
Qed.

Lemma find_Some_first {A} (f : A -> bool) (l : list A) (x : A) :
  find f l = Some x ->
  exists l1 l2, l = l1 ++ x :: l2 /\ f x = true /\ forall y, y ∈ l1 -> f y = false.
Proof.
  induction l as [|a l IH]; [done|]. simpl.
  destruct (f a) eqn:Ha.
  - intros [= <-]. exists [], l. split; [done|]. split; [done|].
    intros y Hy. by apply elem_of_nil in Hy.
  - intros Hf. destruct (IH Hf) as (l1 & l2 & -> & Hx & Hl1).
    exists (a :: l1), l2. split; [done|]. split; [done|].
    intros y Hy. apply elem_of_cons in Hy as [->|Hy]; [done|by apply Hl1].
Qed.

Lemma find_is_Some {A} (f : A -> bool) (l : list A) (x : A) :
  x ∈ l -> f x = true -> exists y, find f l = Some y.
Proof.
  intros Hx Hf. destruct (find f l) as [y|] eqn:E; [by exists y|].
  induction l as [|a l IH]; [by apply elem_of_nil in Hx|].
  simpl in E. destruct (f a) eqn:Ha; [done|].
  apply elem_of_cons in Hx as [->|Hx]; [congruence|by apply IH].
Qed.

(** X6. Whatever segment [ServeHTTP] hands a request to is the first segment
    of the published snapshot whose name is the request's basename; that
    name is not the playlist name, is not empty, and has no slash unless it
    is the root. *)
Theorem X6_served_segment_is_first_match
    (p : Publisher) (h : heap) (urlPath : string) (c : ptr) :
  ServeHTTP p h urlPath = ServeSegment c ->
  exists (st : hlsState) (l1 l2 : list ptr),
    Pub.state p = Some st
    /\ St.segments st = l1 ++ c :: l2
    /\ Seg.name (deref h c) = path_Base urlPath
    /\ (forall c', c' ∈ l1 -> Seg.name (deref h c') <> path_Base urlPath)
    /\ path_Base urlPath <> "index.m3u8"%string
    /\ path_Base urlPath <> EmptyString
    /\ (has_slash (path_Base urlPath) = false \/ path_Base urlPath = "/"%string).
Proof.
  unfold ServeHTTP. destruct (Pub.state p) as [st|]; [|done].
  destruct (String.eqb_spec (path_Base urlPath) "index.m3u8") as [|Hne]; [done|].
  destruct (find _ (St.segments st)) as [c0|] eqn:Hf; [|done].
  intros [= ->]. apply find_Some_first in Hf as (l1 & l2 & Hl & Hc & Hl1).
  exists st, l1, l2. split; [done|]. split; [done|].
  split; [by apply String.eqb_eq|].
  split; [intros c' Hc'; by apply String.eqb_neq, Hl1|].
  split; [done|]. apply path_Base_shape.
Qed.

Lemma X6_served_witness :
  exists (st : hlsState) (l1 l2 : list ptr),
    Pub.state (w_pub world_ten) = Some st
    /\ St.segments st = l1 ++ 9%nat :: l2
    /\ Seg.name (deref (w_heap world_ten) 9%nat) = path_Base "/live/1009.ts"
    /\ (forall c', c' ∈ l1 ->
                   Seg.name (deref (w_heap world_ten) c') <> path_Base "/live/1009.ts")
    /\ path_Base "/live/1009.ts" <> "index.m3u8"%string
    /\ path_Base "/live/1009.ts" <> EmptyString
    /\ (has_slash (path_Base "/live/1009.ts") = false
        \/ path_Base "/live/1009.ts" = "/"%string).
Proof.
  apply (X6_served_segment_is_first_match (w_pub world_ten) (w_heap world_ten)
           "/live/1009.ts" 9%nat).
  vm_compute. reflexivity.
Defined.

(** X7. Every segment of the published snapshot can be fetched: for a name
    that is not the playlist name, not empty and without a slash, a request
    for [mount/name] under any mount is handed to a segment of the snapshot
    with that name, and to that very segment when no other has its name. *)
Theorem X7_snapshot_segment_resolves
    (p : Publisher) (h : heap) (st : hlsState) (c : ptr) (mount : string) :
  Pub.state p = Some st -> c ∈ St.segments st ->
  Seg.name (deref h c) <> "index.m3u8"%string ->
  Seg.name (deref h c) <> EmptyString ->
  has_slash (Seg.name (deref h c)) = false ->
  exists c' : ptr,
    ServeHTTP p h (mount ++ String "/" (Seg.name (deref h c))) = ServeSegment c'
    /\ c' ∈ St.segments st
    /\ Seg.name (deref h c') = Seg.name (deref h c)
    /\ ((forall c'', c'' ∈ St.segments st ->
                     Seg.name (deref h c'') = Seg.name (deref h c) -> c'' = c) ->
        c' = c).
Proof.
  intros Hst Hc Hpl Hne Hsl. unfold ServeHTTP. rewrite Hst.
  rewrite path_Base_mount by done.
  destruct (String.eqb_spec (Seg.name (deref h c)) "index.m3u8"); [done|].
  destruct (find_is_Some
              (fun c0 => String.eqb (Seg.name (deref h c0)) (Seg.name (deref h c)))
              (St.segments st) c Hc (String.eqb_refl _)) as [c' Hf].
  rewrite Hf. exists c'.
  apply find_Some_first in Hf as (l1 & l2 & Hl & Hn & _).
  apply String.eqb_eq in Hn.
  assert (Hin : c' ∈ St.segments st).
  { rewrite Hl. apply elem_of_app. right. apply elem_of_cons. by left. }
  split; [done|]. split; [done|]. split; [done|].
  intros Huniq. by apply Huniq.
Qed.

Lemma X7_resolves_witness :
  exists c' : ptr,
    ServeHTTP (w_pub world_ten) (w_heap world_ten)
      ("/live" ++ String "/" (Seg.name (deref (w_heap world_ten) 3%nat)))
    = ServeSegment c'
    /\ Seg.name (deref (w_heap world_ten) c') = Seg.name (deref (w_heap world_ten) 3%nat).
Proof.
  destruct (X7_snapshot_segment_resolves (w_pub world_ten) (w_heap world_ten)
              state_ten 3%nat "/live")
    as (c' & H1 & _ & H3 & _).
  - vm_compute. reflexivity.
  - vm_compute. repeat constructor.
  - vm_compute. discriminate.
  - vm_compute. discriminate.
  - vm_compute. reflexivity.
  - exists c'. split; [exact H1|exact H3].
Defined.

(** X8. Once a snapshot is published, a request for [mount/index.m3u8]
    under any mount is answered with that snapshot's playlist and the HLS
    playlist content type; and nothing but a request whose basename is the
    playlist name is answered with a playlist. *)
Theorem X8_playlist_request (p : Publisher) (h : heap) (st : hlsState) :
  Pub.state p = Some st ->
  (forall mount : string,
      ServeHTTP p h (mount ++ String "/" "index.m3u8")
      = ServePlaylist "application/vnd.apple.mpegurl" (St.playlist st))
  /\ (forall (urlPath ct body : string),
         ServeHTTP p h urlPath = ServePlaylist ct body ->
         path_Base urlPath = "index.m3u8"%string
         /\ ct = "application/vnd.apple.mpegurl"%string
         /\ body = St.playlist st).
Proof.
  intros Hst. split.
  - intros mount. unfold ServeHTTP. rewrite Hst.
    by rewrite path_Base_mount.
  - intros urlPath ct body. unfold ServeHTTP. rewrite Hst.
    destruct (String.eqb_spec (path_Base urlPath) "index.m3u8") as [E|_].
    + by intros [= <- <-].
    + by destruct (find _ _).
Qed.

Lemma X8_playlist_witness :
  ServeHTTP (w_pub world_ten) (w_heap world_ten) ("/live" ++ String "/" "index.m3u8")
  = ServePlaylist "application/vnd.apple.mpegurl" (St.playlist state_ten).
Proof.
  apply (proj1 (X8_playlist_request (w_pub world_ten) (w_heap world_ten) state_ten
                  ltac:(vm_compute; reflexivity))).
Defined.

(** ** When the snapshot, the queue and the counters change *)

Section Publication.

Context `{Externals}.

Lemma newSegment_state (env : Env) (p : Publisher) (h : heap) (start : Z) :
  activates env p = false ->
  Pub.state (r_pub (newSegment env p h start)) = Pub.state p.
Proof.
  intros Ha. rewrite newSegment_not_picked by (by apply pick_segment_None).
  cbn [r_pub]. destruct (seed_segNum_fields env p) as (sn & -> & _).
  by destruct p.
Qed.

Lemma step_state_cases (w : world) (o : op) :
  Pub.state (w_pub (step w o)) = Pub.state (w_pub w)
  \/ o = OpClose
  \/ exists env pkt, o = OpWritePacket env pkt /\ IsKeyFrame pkt = true
                     /\ activates env (w_pub w) = true.
Proof.
  destruct o as [res|env pkt| |]; cbn [step]; pub_simpl.
  - left. unfold WriteHeader. by destruct res, (w_pub w).
  - destruct (WritePacket_fields env (w_pub w) (w_heap w) pkt)
      as (_ & _ & _ & _ & _ & _ & _ & _ & _ & -> & _).
    destruct (IsKeyFrame pkt) eqn:Hk; [|by left].
    destruct (activates env (w_pub w)) eqn:Ha.
    + right. right. by exists env, pkt.
    + left. by apply newSegment_state.
  - left. by destruct (w_pub w).
  - right. by left.
Qed.

(** X9. The published snapshot is replaced only by a keyframe packet that
    gets a segment to activate, or by [Close]: [WriteHeader],
    [Discontinuity], packets that are not keyframes and keyframes whose
    segment cannot be constructed leave it as it is. *)
Theorem X9_snapshot_replaced_only_on_activation (w : world) (o : op) :
  Pub.state (w_pub (step w o)) <> Pub.state (w_pub w) ->
  o = OpClose
  \/ exists env pkt, o = OpWritePacket env pkt /\ IsKeyFrame pkt = true
                     /\ activates env (w_pub w) = true.
Proof. intros Hne. by destruct (step_state_cases w o) as [?|?]. Qed.

Lemma step_quiet_state (w : world) (o : op) :
  is_quiet o = true -> Pub.state (w_pub (step w o)) = Pub.state (w_pub w).
Proof.
  intros Hq.
  destruct (step_state_cases w o) as [?|[->|(env & pkt & -> & Hk & _)]]; [done|done|].
  simpl in Hq. by rewrite Hk in Hq.
Qed.

(** X10. Until the first keyframe nothing is served: after any calls of a
    fresh publisher other than keyframe packets and [Close], every request
    is answered not-found. *)
Theorem X10_nothing_served_before_first_keyframe
    (iD bL : Z) (wd : string) (pf : bool) (pc : Z) (ops : list op) (urlPath : string) :
  Forall (fun o => is_quiet o = true) ops ->
  let w := run ops (init_world (new_Publisher iD bL wd pf pc)) in
  ServeHTTP (w_pub w) (w_heap w) urlPath = NotFound.
Proof.
  intros Hops w.
  assert (Hst : Pub.state (w_pub w) = None).
  { unfold w. apply (run_ind (fun w => Pub.state (w_pub w) = None)
                       (fun o => is_quiet o = true)); [done| |done].
    intros w1 o Ho Hw. by rewrite step_quiet_state. }
  unfold ServeHTTP. by rewrite Hst.
Qed.

(** X11. A keyframe call that returns no error leaves the precreate queue
    filled to the configured depth: its length is the larger of [Precreate]
    and what the queue held once the segment to activate was taken. *)
Theorem X11_queue_refilled (env : Env) (p : Publisher) (h : heap) (pkt : Packet) :
  IsKeyFrame pkt = true ->
  r_err (WritePacket env p h pkt) = None ->
  Z.of_nat (length (Pub.presegs (r_pub (WritePacket env p h pkt))))
  = Z.max (Z.of_nat (length (tail (Pub.presegs p)))) (Pub.Precreate p).
Proof.
  intros Hkey Herr.
  destruct (WritePacket_fields env p h pkt) as (_ & _ & _ & _ & -> & _).
  assert (Herr0 : r_err (newSegment env p h (Time pkt)) = None).
  { destruct (WritePacket_after env p h pkt) as (_ & _ & _ & Hsame).
    rewrite Hkey in Hsame.
    destruct (r_err (newSegment env p h (Time pkt))) as [e|] eqn:E; [|done].
    rewrite Hsame in Herr by done. congruence. }
  rewrite Hkey.
  destruct (newSegment_cases env p h (Time pkt))
    as [(_ & Hr)|(_ & p1 & h1 & c & cells & sn & pl & err & Hfrom & Hr & _ & Hlen & Hexit)];
    rewrite Hr in *; cbn [r_err r_pub] in *; [done|].
  pub_simpl. rewrite length_app, length_seq.
  assert (Hp1 : length (Pub.presegs p1) = length (tail (Pub.presegs p))).
  { destruct Hfrom as [[-> _]|(-> & -> & _)]; done. }
  specialize (Hexit Herr0). rewrite Hp1 in *. lia.
Qed.

End Publication.

Lemma X9_snapshot_witness :
  OpWritePacket env_ok (key_at (10 * Second)) = OpClose
  \/ exists env pkt,
      OpWritePacket env_ok (key_at (10 * Second)) = OpWritePacket env pkt
      /\ IsKeyFrame pkt = true /\ activates env (w_pub world_ten) = true.
Proof.
  apply (@X9_snapshot_replaced_only_on_activation sample_externals world_ten
           (OpWritePacket env_ok (key_at (10 * Second)))).
  vm_compute. discriminate.
Defined.

Lemma X10_not_found_witness :
  ServeHTTP
    (w_pub (@run sample_externals
              [OpWriteHeader (Some "HDR"%string); OpDiscontinuity;
               OpWritePacket env_ok (delta_at 0)]
              (init_world (new_Publisher 0 0 "" false 2))))
    (w_heap (@run sample_externals
               [OpWriteHeader (Some "HDR"%string); OpDiscontinuity;
                OpWritePacket env_ok (delta_at 0)]
               (init_world (new_Publisher 0 0 "" false 2))))
    "/live/index.m3u8"
  = NotFound.
Proof.
  apply (@X10_nothing_served_before_first_keyframe sample_externals).
  repeat constructor.
Defined.

Lemma X11_queue_witness :
  Z.of_nat (length (Pub.presegs
                      (r_pub (@WritePacket sample_externals env_ok
                                (new_Publisher 0 0 "" false 2) [] (key_at 0)))))
  = Z.max (Z.of_nat (length (tail (Pub.presegs (new_Publisher 0 0 "" false 2)))))
          (Pub.Precreate (new_Publisher 0 0 "" false 2)).
Proof.
  apply (@X11_queue_refilled sample_externals); vm_compute; reflexivity.
Defined.

(** ** Life cycle states across the store *)

Lemma life_at_fmap (h : heap) (c : ptr) : life_at h c = (Seg.life <$> h) !! c.
Proof. unfold life_at. by rewrite list_lookup_fmap. Qed.

Lemma lifes_release_all (h : heap) (l : list ptr) (c : ptr) :
  (Seg.life <$> release_all h l) !! c =
    if bool_decide (c ∈ l) then (fun _ => Released) <$> (Seg.life <$> h) !! c
    else (Seg.life <$> h) !! c.
Proof.
  rewrite !list_lookup_fmap, release_all_lookup.
  case_bool_decide; [|done]. by destruct (h !! c).
Qed.

Lemma lifes_activate (start est : Z) (d : bool) (c : ptr) (h : heap) :
  Seg.life <$> alter (activate start est d) c h
  = alter (fun _ => Active) c (Seg.life <$> h).
Proof. apply list_fmap_alter, Forall_forall. by intros s _. Qed.

Lemma lifes_finalize_current (p : Publisher) (h : heap) (start : Z) :
  Seg.life <$> finalize_current p h start =
    match Pub.current p with
    | Some c0 => alter (fun _ => Finalized) c0 (Seg.life <$> h)
    | None => Seg.life <$> h
    end.
Proof.
  unfold finalize_current. destruct (Pub.current p) as [c0|]; [|done].
  apply list_fmap_alter, Forall_forall. by intros s _.
Qed.

Lemma lifes_finalize_lookup (p : Publisher) (h : heap) (start : Z) (c : ptr) :
  (c < length h)%nat ->
  (Seg.life <$> finalize_current p h start) !! c =
    if decide (Pub.current p = Some c) then Some Finalized
    else (Seg.life <$> h) !! c.
Proof.
  intros Hc. rewrite lifes_finalize_current.
  destruct (Pub.current p) as [c0|]; [|by case_decide].
  destruct (decide (c0 = c)) as [->|Hne].
  - rewrite decide_True by done. rewrite list_lookup_alter_eq.
    destruct (lookup_lt_is_Some_2 (Seg.life <$> h) c) as [x ->];
      [by rewrite length_fmap|done].
  - rewrite decide_False by congruence. by rewrite list_lookup_alter_ne.
Qed.

(** ** The invariant of reachable states *)

(** [wf_world] reads the store only through the life cycle states. *)
Lemma wf_world_ext (w w' : world) :
  w_log w' = w_log w ->
  Pub.segments (w_pub w') = Pub.segments (w_pub w) ->
  Pub.presegs (w_pub w') = Pub.presegs (w_pub w) ->
  Pub.current (w_pub w') = Pub.current (w_pub w) ->
  Pub.state (w_pub w') = Pub.state (w_pub w) ->
  Seg.life <$> w_heap w' = Seg.life <$> w_heap w ->
  wf_world w -> wf_world w'.
Proof.
  intros El Es Ep Ec Est Eh.
  assert (Hlen : length (w_heap w') = length (w_heap w)).
  { by rewrite <- (length_fmap Seg.life (w_heap w')), Eh, length_fmap. }
  assert (Hlife : forall c, life_at (w_heap w') c = life_at (w_heap w) c).
  { intros c. by rewrite !life_at_fmap, Eh. }
  unfold wf_world, all_ptrs. rewrite El, Es, Ep, Ec, Est, Hlen.
  intros (H1 & H2 & H3 & H4 & H5 & H6 & H7).
  split; [done|]. split; [done|].
  split; [eapply Forall_impl; [exact H3|]; intros c; by rewrite Hlife|].
  split; [eapply Forall_impl; [exact H4|]; intros c; by rewrite Hlife|].
  split; [eapply Forall_impl; [exact H5|]; intros c; by rewrite Hlife|].
  done.
Qed.

Lemma wf_world_init (p0 : Publisher) :
  Pub.segments p0 = [] -> Pub.presegs p0 = [] -> Pub.current p0 = None ->
  Pub.state p0 = None -> wf_world (init_world p0).
Proof.
  intros Hs Hp Hc Hst. unfold wf_world, all_ptrs, init_world. cbn [w_pub w_heap w_log].
  rewrite Hs, Hp, Hc, Hst. simpl.
  split; [constructor|]. repeat (split; [constructor|]). split; done.
Qed.

Lemma wf_world_Close (w : world) :
  wf_world w ->
  wf_world (mkWorld (Close (w_pub w) (w_heap w)).1 (Close (w_pub w) (w_heap w)).2
              (w_log w)).
Proof.
  intros (H1 & H2 & H3 & _). unfold wf_world, all_ptrs, Close.
  cbn [w_pub w_heap w_log fst snd]. pub_simpl.
  rewrite !app_nil_r, !release_all_length.
  split; [by apply NoDup_app in H1 as (? & _)|].
  split; [by apply Forall_app in H2 as (? & _)|].
  split.
  - eapply Forall_impl; [exact H3|]. intros c Hc. simpl in *.
    rewrite life_at_fmap in *. rewrite !lifes_release_all, Hc.
    by repeat case_bool_decide.
  - split; [constructor|]. split; [constructor|]. split; [done|].
    intros st [= <-]. by exists 0%nat.
Qed.

Lemma with_flags_fst (h : heap) (l : list ptr) : (with_flags h l).*1 = l.
Proof.
  unfold with_flags. rewrite <- list_fmap_compose. apply list_fmap_id.
Qed.

Lemma NoDup_take_drop_disjoint {A} (l : list A) (n : nat) (x : A) :
  NoDup l -> x ∈ take n l -> x ∉ drop n l.
Proof.
  intros Hl Hx. rewrite <- (take_drop n l) in Hl.
  apply NoDup_app in Hl as (_ & Hd & _). by apply Hd.
Qed.

Lemma wf_world_failed_keyframe (w w' : world) (start : Z) :
  wf_world w ->
  w_log w' = w_log w ->
  Pub.segments (w_pub w') = Pub.segments (w_pub w) ->
  Pub.presegs (w_pub w') = Pub.presegs (w_pub w) ->
  Pub.current (w_pub w') = None ->
  Pub.state (w_pub w') = Pub.state (w_pub w) ->
  Seg.life <$> w_heap w' = Seg.life <$> finalize_current (w_pub w) (w_heap w) start ->
  wf_world w'.
Proof.
  intros (H1 & H2 & H3 & H4 & H5 & H6 & H7) El Es Ep Ec Est Eh.
  assert (Hlen : length (w_heap w') = length (w_heap w)).
  { by rewrite <- (length_fmap Seg.life (w_heap w')), Eh, length_fmap,
      finalize_current_length. }
  unfold all_ptrs in *.
  apply NoDup_app in H1 as (HL & HLd & HSQ).
  apply NoDup_app in HSQ as (HS & HSd & HQ).
  apply Forall_app in H2 as (VL & VSQ). apply Forall_app in VSQ as (VS & VQ).
  assert (Hcur : forall c, Pub.current (w_pub w) = Some c -> c ∈ Pub.segments (w_pub w)).
  { intros c Hc. by apply last_Some_elem_of, H6. }
  unfold wf_world, all_ptrs. rewrite El, Es, Ep, Ec, Est, Hlen.
  split; [apply NoDup_app; split; [done|]; split; [done|]; by apply NoDup_app|].
  split; [by rewrite !Forall_app|].
  assert (Hlook : forall c, (c < length (w_heap w))%nat ->
            life_at (w_heap w') c =
              if decide (Pub.current (w_pub w) = Some c) then Some Finalized
              else life_at (w_heap w) c).
  { intros c Hc. rewrite !life_at_fmap, Eh. by apply lifes_finalize_lookup. }
  split; [|split; [|split; [|split; [done|done]]]].
  - apply Forall_forall. intros c Hc.
    rewrite Forall_forall in H3, VL. rewrite Hlook by (by apply VL).
    rewrite decide_False; [by apply H3|].
    intros Hcc. apply Hcur in Hcc. apply (HLd c Hc). apply elem_of_app. by left.
  - apply Forall_forall. intros c Hc.
    rewrite Forall_forall in H4, VQ. rewrite Hlook by (by apply VQ).
    rewrite decide_False; [by apply H4|].
    intros Hcc. apply Hcur in Hcc. by apply (HSd c Hcc).
  - apply Forall_forall. intros c Hc.
    rewrite Forall_forall in H5, VS. rewrite Hlook by (by apply VS).
    rewrite (decide_False (P := None = Some c)) by done.
    case_decide; [done|]. rewrite (H5 c Hc). by rewrite decide_False.
Qed.

Lemma wf_world_activated (w w' : world) (start est : Z) (d : bool)
    (p1 : Publisher) (h1 : heap) (c : ptr) (cells : list segment)
    (n : nat) (pl : string) :
  wf_world w ->
  picked_from (w_pub w) (w_heap w) start p1 h1 c ->
  Forall (fun s => Seg.life s = Created) cells ->
  (n < length (Pub.segments (w_pub w) ++ [c]))%nat ->
  let h2 := alter (activate start est d) c h1 in
  let segs := Pub.segments (w_pub w) ++ [c] in
  w_log w' = w_log w ++ with_flags h2 (take n segs) ->
  Pub.segments (w_pub w') = drop n segs ->
  Pub.presegs (w_pub w') = Pub.presegs p1 ++ seq (length h1) (length cells) ->
  Pub.current (w_pub w') = Some c ->
  Pub.state (w_pub w') = Some (St.mk pl (drop n segs ++ Pub.presegs p1)) ->
  Seg.life <$> w_heap w' = Seg.life <$> (release_all h2 (take n segs) ++ cells) ->
  wf_world w'.
Proof.
  intros (H1 & H2 & H3 & H4 & H5 & H6 & H7) Hfrom Hcells Hn h2 segs El Es Ep Ec Est Eh.
  set (L := (w_log w).*1) in *. set (S0 := Pub.segments (w_pub w)) in *.
  set (Q := Pub.presegs (w_pub w)) in *. set (Q1 := Pub.presegs p1) in *.
  set (h := w_heap w) in *. set (k := length cells) in *.
  unfold all_ptrs in H1, H2. fold L S0 Q in H1, H2.
  apply NoDup_app in H1 as (HL & HLd & HSQ).
  apply NoDup_app in HSQ as (HS & HSd & HQ).
  apply Forall_app in H2 as (VL & VSQ). apply Forall_app in VSQ as (VS & VQ).
  rewrite Forall_forall in VL, VS, VQ, H3, H4, H5.
  assert (Hcur : forall c0, Pub.current (w_pub w) = Some c0 -> c0 ∈ S0).
  { intros c0 Hc0. by apply last_Some_elem_of, H6. }
  (* the store the segment is activated in *)
  assert (Hh1 : (length h <= length h1)%nat /\ (c < length h1)%nat
                /\ (c ∉ L) /\ (c ∉ S0) /\ (c ∉ Q1) /\ NoDup Q1
                /\ (forall x, x ∈ Q1 -> x ∈ Q)
                /\ (Seg.life <$> h1) !! c = Some Created
                /\ forall x, (x < length h)%nat -> x <> c ->
                     (Seg.life <$> h1) !! x =
                       if decide (Pub.current (w_pub w) = Some x) then Some Finalized
                       else (Seg.life <$> h) !! x).
  { destruct Hfrom as [[HQc ->]|(HQe & HQ1 & -> & s0 & -> & _ & _ & Hs0)].
    - fold Q Q1 in HQc. rewrite HQc in HQ, HSd, HLd, VQ, H4.
      apply NoDup_cons in HQ as [HcQ1 HQ1].
      assert (HcQ : c ∈ c :: Q1) by (apply elem_of_cons; by left).
      rewrite finalize_current_length. fold h.
      split; [done|]. split; [by apply VQ|].
      split; [intros Hc; apply (HLd c Hc), elem_of_app; by right|].
      split; [intros Hc; by apply (HSd c Hc)|].
      split; [done|]. split; [done|].
      split; [intros x Hx; rewrite HQc; apply elem_of_cons; by right|].
      split.
      + rewrite lifes_finalize_lookup by (by apply VQ).
        rewrite decide_False.
        * rewrite <- life_at_fmap. by apply H4.
        * intros Hc. apply Hcur in Hc. by apply (HSd c Hc).
      + intros x Hx _. by apply lifes_finalize_lookup.
    - fold Q Q1 in HQe, HQ1. fold h.
      rewrite length_app, finalize_current_length. fold h. simpl.
      split; [lia|]. split; [lia|].
      split; [intros Hc; apply VL in Hc; lia|].
      split; [intros Hc; apply VS in Hc; lia|].
      rewrite HQ1.
      split; [by intros ?%elem_of_nil|]. split; [constructor|].
      split; [by intros x ?%elem_of_nil|].
      split.
      + rewrite fmap_app, lookup_app_r by (by rewrite length_fmap, finalize_current_length).
        rewrite length_fmap, finalize_current_length. fold h.
        rewrite Nat.sub_diag. simpl. by rewrite Hs0.
      + intros x Hx _. rewrite fmap_app.
        rewrite lookup_app_l by (by rewrite length_fmap, finalize_current_length).
        by apply lifes_finalize_lookup. }
  destruct Hh1 as (Hlen1 & Hc1 & HcL & HcS & HcQ1 & HQ1 & HQ1Q & Hlc & Hl1).
  (* the window with the new segment has no duplicates *)
  assert (Hsegs : NoDup segs).
  { unfold segs. apply NoDup_app. split; [done|]. split; [|apply NoDup_singleton].
    intros x Hx ->%list_elem_of_singleton. done. }
  assert (Hsegs_in : forall x, x ∈ segs -> x ∈ S0 \/ x = c).
  { intros x Hx. unfold segs in Hx. apply elem_of_app in Hx as [?|?%list_elem_of_singleton];
      auto. }
  assert (Hvalid1 : forall x, x ∈ L \/ x ∈ segs \/ x ∈ Q1 -> (x < length h1)%nat).
  { intros x [Hx|[Hx|Hx]].
    - apply VL in Hx. lia.
    - apply Hsegs_in in Hx as [Hx| ->]; [apply VS in Hx; lia|done].
    - apply HQ1Q, VQ in Hx. lia. }
  (* life cycle states after the call *)
  assert (Hlen' : length (w_heap w') = (length h1 + k)%nat).
  { rewrite <- (length_fmap Seg.life (w_heap w')), Eh, length_fmap, length_app,
      release_all_length. unfold h2. by rewrite length_alter. }
  assert (Hlife : forall x, (x < length h1)%nat ->
            life_at (w_heap w') x =
              if bool_decide (x ∈ take n segs) then Some Released
              else if decide (x = c) then Some Active
              else (Seg.life <$> h1) !! x).
  { intros x Hx. rewrite life_at_fmap, Eh, fmap_app.
    rewrite lookup_app_l by
      (rewrite length_fmap, release_all_length; unfold h2; by rewrite length_alter).
    rewrite lifes_release_all. unfold h2. rewrite lifes_activate.
    destruct (lookup_lt_is_Some_2 (Seg.life <$> h1) x) as [lx Hlx];
      [by rewrite length_fmap|].
    destruct (decide (x = c)) as [->|Hne].
    - rewrite list_lookup_alter_eq, Hlx. simpl. by case_bool_decide.
    - rewrite list_lookup_alter_ne by done. rewrite Hlx. simpl. by case_bool_decide. }
  assert (Hnew : forall x, x ∈ seq (length h1) k ->
            (length h1 <= x < length h1 + k)%nat
            /\ life_at (w_heap w') x = Some Created).
  { intros x Hx. apply elem_of_seq in Hx. split; [lia|].
    rewrite life_at_fmap, Eh, fmap_app.
    rewrite lookup_app_r by
      (rewrite length_fmap, release_all_length; unfold h2; rewrite length_alter; lia).
    rewrite length_fmap, release_all_length. unfold h2. rewrite length_alter.
    rewrite (fmap_cells_replicate Seg.life Created cells Hcells).
    apply lookup_replicate_2. fold k. lia. }
  unfold wf_world, all_ptrs. rewrite El, Es, Ep, Ec, Est, Hlen'.
  rewrite fmap_app, with_flags_fst. fold L.
  assert (Eall : (L ++ take n segs) ++ drop n segs ++ Q1 ++ seq (length h1) k
                 = L ++ segs ++ Q1 ++ seq (length h1) k).
  { rewrite <- !app_assoc. f_equal. rewrite !app_assoc. f_equal. f_equal.
    apply take_drop. }
  fold Q1 k. rewrite Eall.
  split; [|split; [|split; [|split; [|split; [|split]]]]].
  - (* no duplicates *)
    apply NoDup_app. split; [done|]. split.
    + intros x Hx Hin. apply elem_of_app in Hin as [Hin|Hin].
      * apply Hsegs_in in Hin as [Hin| ->]; [|done].
        apply (HLd x Hx), elem_of_app. by left.
      * apply elem_of_app in Hin as [Hin|Hin].
        -- apply (HLd x Hx), elem_of_app. right. by apply HQ1Q.
        -- apply Hnew in Hin as [? _]. apply VL in Hx. lia.
    + apply NoDup_app. split; [done|]. split.
      * intros x Hx Hin. apply elem_of_app in Hin as [Hin|Hin].
        -- apply Hsegs_in in Hx as [Hx| ->]; [|done].
           by apply (HSd x Hx), HQ1Q.
        -- apply Hnew in Hin as [? _].
           assert (x < length h1)%nat by (apply Hvalid1; auto). lia.
      * apply NoDup_app. split; [done|]. split; [|apply NoDup_seq].
        intros x Hx Hin. apply Hnew in Hin as [? _].
        assert (x < length h1)%nat by (apply Hvalid1; auto). lia.
  - (* every pointer leads into the store *)
    apply Forall_forall. intros x Hx.
    apply elem_of_app in Hx as [Hx|Hx]; [assert (x < length h1)%nat by auto; lia|].
    apply elem_of_app in Hx as [Hx|Hx]; [assert (x < length h1)%nat by auto; lia|].
    apply elem_of_app in Hx as [Hx|Hx]; [assert (x < length h1)%nat by auto; lia|].
    apply Hnew in Hx as [? _]. lia.
  - (* the evicted are Released *)
    apply Forall_forall. intros x Hx. apply elem_of_app in Hx as [Hx|Hx].
    + rewrite Hlife by auto.
      case_bool_decide; [done|].
      rewrite decide_False by (by intros ->).
      rewrite Hl1; [|by apply VL|by intros ->].
      rewrite decide_False; [rewrite <- life_at_fmap; by apply H3|].
      intros Hc. apply Hcur in Hc. apply (HLd x Hx), elem_of_app. by left.
    + rewrite Hlife by (apply Hvalid1; right; left; by apply (subseteq_take n segs)).
      by rewrite bool_decide_eq_true_2.
  - (* the queue is Created *)
    apply Forall_forall. intros x Hx. apply elem_of_app in Hx as [Hx|Hx];
      [|by apply Hnew].
    rewrite Hlife by auto.
    rewrite bool_decide_eq_false_2.
    2:{ intros Hin%(subseteq_take n segs). apply Hsegs_in in Hin as [Hin| ->]; [|done].
        by apply (HSd x Hin), HQ1Q. }
    rewrite decide_False by (by intros ->).
    rewrite Hl1; [|by apply VQ, HQ1Q|by intros ->].
    rewrite decide_False; [rewrite <- life_at_fmap; by apply H4, HQ1Q|].
    intros Hc. apply Hcur in Hc. by apply (HSd x Hc), HQ1Q.
  - (* the window is Finalized but for the current segment *)
    apply Forall_forall. intros x Hx.
    assert (Hxs : x ∈ segs) by (by apply (subseteq_drop n segs)).
    rewrite Hlife by auto.
    rewrite bool_decide_eq_false_2
      by (intros Hin; by apply (NoDup_take_drop_disjoint segs n x)).
    destruct (decide (x = c)) as [->|Hne]; [by rewrite decide_True|].
    rewrite (decide_False (P := Some c = Some x)) by congruence.
    apply Hsegs_in in Hxs as [Hxs|?]; [|done].
    rewrite Hl1; [|by apply VS|done].
    case_decide; [done|]. rewrite <- life_at_fmap, (H5 x Hxs). by rewrite decide_False.
  - (* the current segment is the newest of the window *)
    intros c0 [= <-]. rewrite last_drop_lt by done. apply last_snoc.
  - (* the snapshot is the window and a prefix of the queue *)
    intros st [= <-]. exists (length Q1). cbn [St.segments].
    by rewrite take_app_length.
Qed.

Section Invariant.

Context `{Externals}.

Lemma step_wf_world (w : world) (o : op) : wf_world w -> wf_world (step w o).
Proof.
  intros Hw. destruct o as [res|env pkt| |]; cbn [step].
  - unfold WriteHeader.
    destruct res; apply (wf_world_ext w); cbn [w_pub w_heap w_log]; pub_simpl;
      by rewrite ?app_nil_r.
  - destruct (WritePacket_fields env (w_pub w) (w_heap w) pkt)
      as (_ & _ & _ & Es & Ep & _ & _ & _ & _ & Est & Ec & _).
    destruct (WritePacket_after env (w_pub w) (w_heap w) pkt) as (Ev & _).
    pose proof (WritePacket_heap_fmap Seg.life env (w_pub w) (w_heap w) pkt
                  ltac:(done)) as Eh.
    set (r := WritePacket env (w_pub w) (w_heap w) pkt) in *.
    set (r0 := if IsKeyFrame pkt then newSegment env (w_pub w) (w_heap w) (Time pkt)
               else mkResult (w_pub w) (w_heap w) [] None) in *.
    apply (wf_world_ext (mkWorld (r_pub r0) (r_heap r0) (w_log w ++ r_evicted r0)));
      cbn [w_pub w_heap w_log]; [by rewrite Ev|done|done|done|done|done|].
    clear Es Ep Est Ec Ev Eh r. unfold r0. clear r0.
    destruct (IsKeyFrame pkt).
    + destruct (newSegment_cases env (w_pub w) (w_heap w) (Time pkt))
        as [(_ & ->)|(_ & p1 & h1 & c & cells & sn & pl & err & Hfrom & -> & Hcells & _)].
      * cbn [r_pub r_heap r_evicted].
        destruct (seed_segNum_proj env (w_pub w)) as (E1 & E2 & _ & _ & _ & E6 & _).
        apply (wf_world_failed_keyframe w _ (Time pkt)); cbn [w_pub w_heap w_log];
          [done|by rewrite app_nil_r|exact E1|exact E2|done|exact E6|done].
      * cbn [r_pub r_heap r_evicted].
        eapply (wf_world_activated w _ (Time pkt) _ _ p1 h1 c cells _ pl);
          cbn [w_pub w_heap w_log]; pub_simpl;
          [done|exact Hfrom| | |reflexivity|reflexivity|reflexivity|reflexivity
          |reflexivity|reflexivity].
        -- eapply Forall_impl; [exact Hcells|]. by intros s [_ ?].
        -- pose proof (keepSegments_ge_10 (w_pub w)
                         (targetDuration (w_pub w)
                            (finalize_current (w_pub w) (w_heap w) (Time pkt)))).
           rewrite length_app in *. simpl. lia.
    + cbn [r_pub r_heap r_evicted].
      apply (wf_world_ext w); cbn [w_pub w_heap w_log]; by rewrite ?app_nil_r.
  - apply (wf_world_ext w); cbn [w_pub w_heap w_log]; by pub_simpl.
  - destruct (Close (w_pub w) (w_heap w)) as [p' h'] eqn:E.
    pose proof (wf_world_Close w Hw) as Hc. by rewrite E in Hc.
Qed.

Lemma run_wf_world (iD bL : Z) (wd : string) (pf : bool) (pc : Z) (ops : list op) :
  wf_world (run ops (init_world (new_Publisher iD bL wd pf pc))).
Proof.
  apply (run_ind wf_world (fun _ => True)).
  - by apply wf_world_init.
  - intros w o _. apply step_wf_world.
  - apply Forall_True.
Qed.

End Invariant.

(** ** What every reachable state satisfies *)

Section Reachable.

Context `{Externals}.

Lemma run_counted (iD bL : Z) (wd : string) (pf : bool) (pc : Z) (ops : list op) :
  counted (run ops (init_world (new_Publisher iD bL wd pf pc))).
Proof.
  apply (run_ind counted (fun _ => True)).
  - by apply init_counted.
  - intros w o _. apply step_counted.
  - apply Forall_True.
Qed.

Lemma step_log_grows (w : world) (o : op) :
  exists ev, w_log (step w o) = w_log w ++ ev.
Proof.
  destruct o as [res|env pkt| |]; cbn [step]; cbn [w_log].
  - by eexists.
  - by eexists.
  - exists []. by rewrite app_nil_r.
  - destruct (Close _ _). exists []. cbn [w_log]. by rewrite app_nil_r.
Qed.

(** X12. The counters never go back: over any run of a fresh publisher, as
    long as the number of evictions fits an [int64], a call leaves [seq] and
    [dcnseq] at least as large as it found them, and [dcnseq] never exceeds
    [seq]. *)
Theorem X12_counters_never_decrease
    (iD bL : Z) (wd : string) (pf : bool) (pc : Z) (ops : list op) (o : op) :
  let w := run ops (init_world (new_Publisher iD bL wd pf pc)) in
  let w' := step w o in
  Z.of_nat (length (w_log w')) <= max_int64 ->
  0 <= Pub.dcnseq (w_pub w) <= Pub.seq (w_pub w)
  /\ Pub.seq (w_pub w) <= Pub.seq (w_pub w')
  /\ Pub.dcnseq (w_pub w) <= Pub.dcnseq (w_pub w').
Proof.
  intros w w' Hfit.
  pose proof (run_counted iD bL wd pf pc ops) as [Hs Hd]. fold w in Hs, Hd.
  pose proof (step_counted w o (conj Hs Hd)) as [Hs' Hd']. fold w' in Hs', Hd'.
  destruct (step_log_grows w o) as [ev Hev]. fold w' in Hev.
  assert (Hc : forall l : list (ptr * bool), (dcn_count l <= length l)%nat).
  { intros l. unfold dcn_count. apply filter_length_le. }
  pose proof (Hc (w_log w)). pose proof (Hc (w_log w')).
  assert (Hl : (length (w_log w) <= length (w_log w'))%nat
               /\ (dcn_count (w_log w) <= dcn_count (w_log w'))%nat).
  { rewrite Hev, length_app, dcn_count_app. lia. }
  rewrite Hs, Hd, Hs', Hd'.
  rewrite !wrap64_id; unfold min_int64, max_int64 in *; lia.
Qed.

(** X13. No segment is held twice: in every state a fresh publisher can
    reach, the evicted segments, the window and the precreate queue share
    no segment and repeat none, and each of them is a segment of the store.
    So an evicted segment never returns to the window. *)
Theorem X13_segments_held_once
    (iD bL : Z) (wd : string) (pf : bool) (pc : Z) (ops : list op) :
  let w := run ops (init_world (new_Publisher iD bL wd pf pc)) in
  NoDup ((w_log w).*1 ++ Pub.segments (w_pub w) ++ Pub.presegs (w_pub w))
  /\ Forall (fun c => (c < length (w_heap w))%nat)
       ((w_log w).*1 ++ Pub.segments (w_pub w) ++ Pub.presegs (w_pub w)).
Proof.
  intros w. destruct (run_wf_world iD bL wd pf pc ops) as (H1 & H2 & _). done.
Qed.

(** X14. Every segment [trimSegments] has evicted is Released, in the state
    right after the call and in every later one; and the current segment,
    the one packets are written to and the next keyframe finalizes, is
    never an evicted one. *)
Theorem X14_evicted_stay_released
    (iD bL : Z) (wd : string) (pf : bool) (pc : Z) (ops : list op) :
  let w := run ops (init_world (new_Publisher iD bL wd pf pc)) in
  Forall (fun c => life_at (w_heap w) c = Some Released) (w_log w).*1
  /\ (forall c, Pub.current (w_pub w) = Some c -> c ∉ (w_log w).*1).
Proof.
  intros w.
  destruct (run_wf_world iD bL wd pf pc ops) as (H1 & _ & H3 & _ & _ & H6 & _).
  split; [done|]. intros c Hc Hin.
  apply H6, last_Some_elem_of in Hc.
  unfold all_ptrs in H1. apply NoDup_app in H1 as (_ & Hd & _).
  apply (Hd c Hin). apply elem_of_app. by left.
Qed.


(** X16. Between calls the segment that receives packets, if there is one,
    is the newest of the window and is Active; every other segment of the
    window is Finalized, and every segment of the precreate queue is still
    Created. *)
Theorem X16_one_active_segment
    (iD bL : Z) (wd : string) (pf : bool) (pc : Z) (ops : list op) :
  let w := run ops (init_world (new_Publisher iD bL wd pf pc)) in
  (forall c, Pub.current (w_pub w) = Some c ->
             last (Pub.segments (w_pub w)) = Some c)
  /\ Forall (fun c => life_at (w_heap w) c =
                      Some (if decide (Pub.current (w_pub w) = Some c)
                            then Active else Finalized))
       (Pub.segments (w_pub w))
  /\ Forall (fun c => life_at (w_heap w) c = Some Created) (Pub.presegs (w_pub w)).
Proof.
  intros w.
  by destruct (run_wf_world iD bL wd pf pc ops) as (_ & _ & _ & H4 & H5 & H6 & _).
Qed.

End Reachable.

Lemma X12_counters_witness :
  0 <= Pub.dcnseq (w_pub world_ten) <= Pub.seq (w_pub world_ten)
  /\ Pub.seq (w_pub world_ten)
     <= Pub.seq (w_pub (@step sample_externals world_ten
                          (OpWritePacket env_ok (key_at (10 * Second)))))
  /\ Pub.dcnseq (w_pub world_ten)
     <= Pub.dcnseq (w_pub (@step sample_externals world_ten
                             (OpWritePacket env_ok (key_at (10 * Second))))).
Proof.
  refine (@X12_counters_never_decrease sample_externals 0 (2 * Second) ""%string false 0
            (OpWriteHeader (Some "HDR"%string) :: keyframes 10)
            (OpWritePacket env_ok (key_at (10 * Second))) _).
  vm_compute. discriminate.
Defined.

Lemma X14_current_witness : 10%nat ∉ (w_log world_eleven).*1.
Proof.
  refine (proj2 (@X14_evicted_stay_released sample_externals 0 (2 * Second) ""%string
                   false 0 (OpWriteHeader (Some "HDR"%string) :: keyframes 11))
            10%nat _).
  vm_compute. reflexivity.
Defined.


Lemma X16_active_witness :
  last (Pub.segments (w_pub world_ten)) = Some 9%nat.
Proof.
  refine (proj1 (@X16_one_active_segment sample_externals 0 (2 * Second) ""%string
                   false 0 (OpWriteHeader (Some "HDR"%string) :: keyframes 10))
            9%nat _).
  vm_compute. reflexivity.
Defined.

(** ** Segment ids *)

Lemma increasing_app (l1 l2 : list Z) :
  increasing l1 -> increasing l2 ->
  (forall a b, a ∈ l1 -> b ∈ l2 -> a < b) ->
  increasing (l1 ++ l2).
Proof.
  intros H1 H2 H12 i j a b Hij Ha Hb.
  destruct (decide (j < length l1)%nat) as [Hj|Hj].
  - rewrite lookup_app_l in Ha, Hb by lia. by apply (H1 i j).
  - rewrite lookup_app_r in Hb by lia.
    destruct (decide (i < length l1)%nat) as [Hi|Hi].
    + rewrite lookup_app_l in Ha by lia.
      apply H12; by eapply list_elem_of_lookup_2.
    + rewrite lookup_app_r in Ha by lia.
      apply (H2 (i - length l1)%nat (j - length l1)%nat); [lia|done|done].
Qed.

Lemma increasing_consecutive (a : Z) (k : nat) :
  increasing ((fun i : nat => a + Z.of_nat i) <$> seq 0 k).
Proof.
  intros i j x y Hij Hx Hy.
  rewrite list_lookup_fmap in Hx, Hy.
  destruct (seq 0 k !! i) as [i'|] eqn:Ei; [|done].
  destruct (seq 0 k !! j) as [j'|] eqn:Ej; [|done].
  apply lookup_seq in Ei as [-> _]. apply lookup_seq in Ej as [-> _].
  simpl in *. injection Hx as <-. injection Hy as <-. lia.
Qed.

Lemma elem_of_consecutive (a : Z) (k : nat) (x : Z) :
  x ∈ (fun i : nat => a + Z.of_nat i) <$> seq 0 k -> a <= x < a + Z.of_nat k.
Proof.
  intros (i & -> & Hi)%list_elem_of_fmap. apply elem_of_seq in Hi. lia.
Qed.

Section Ids.

Context `{Externals}.

(** The ids the precreate loop hands out are consecutive from the counter,
    as long as the counter does not wrap. *)
Lemma precreate_ids (env : Env) (fuel : nat) (p : Publisher) (h : heap) :
  min_int64 <= Pub.segNum p -> Pub.segNum p + Z.of_nat fuel <= max_int64 ->
  exists k : nat,
    (k <= fuel)%nat
    /\ Seg.num <$> (precreate env fuel p h).1.2 =
       (Seg.num <$> h) ++ ((fun i : nat => Pub.segNum p + Z.of_nat i) <$> seq 0 k)
    /\ Pub.segNum (precreate env fuel p h).1.1 = Pub.segNum p + Z.of_nat k
    /\ Pub.Precreate (precreate env fuel p h).1.1 = Pub.Precreate p.
Proof.
  revert p h. induction fuel as [|fuel IH]; intros p h Hlo Hhi.
  - exists 0%nat. simpl. rewrite app_nil_r. repeat split; [done|lia].
  - simpl.
    destruct (Z.of_nat (length (Pub.presegs p)) <? Pub.Precreate p).
    + destruct (alloc_ok env (Pub.segNum p)).
      * set (p1 := Pub.with_segNum _ _). set (h1 := h ++ _).
        assert (Hsn : Pub.segNum p1 = Pub.segNum p + 1).
        { unfold p1. pub_simpl. unfold incr64, add64.
          apply wrap64_id. unfold min_int64, max_int64 in *. lia. }
        assert (Hpc1 : Pub.Precreate p1 = Pub.Precreate p) by (by destruct p).
        destruct (IH p1 h1) as (k & Hk & Hn & Hs & Hpc); [lia|lia|].
        exists (S k). split; [lia|]. rewrite Hn, Hs, Hsn, Hpc, Hpc1.
        split; [|split; [lia|done]].
        unfold h1. rewrite fmap_app, <- app_assoc. f_equal.
        cbn [seq]. rewrite fmap_cons. simpl. rewrite Z.add_0_r. f_equal.
        rewrite <- fmap_S_seq, <- list_fmap_compose.
        apply list_fmap_ext. intros _ i _. simpl. lia.
      * exists 0%nat. simpl. rewrite app_nil_r. repeat split; [lia|lia].
    + exists 0%nat. simpl. rewrite app_nil_r. repeat split; [lia|lia].
Qed.


(** The ids a call of [newSegment] hands out: the seeded counter and its
    successors, in order. *)
Lemma newSegment_ids (env : Env) (p : Publisher) (h : heap) (start : Z) :
  let s := Pub.segNum (seed_segNum env p) in
  min_int64 <= s -> s + 1 + Z.max 0 (Pub.Precreate p) <= max_int64 ->
  let r := newSegment env p h start in
  exists news : list Z,
    Seg.num <$> r_heap r = (Seg.num <$> h) ++ news
    /\ increasing news
    /\ Forall (fun x => s <= x < Pub.segNum (r_pub r)) news
    /\ s <= Pub.segNum (r_pub r) <= s + 1 + Z.max 0 (Pub.Precreate p)
    /\ Pub.Precreate (r_pub r) = Pub.Precreate p.
Proof.
  intros s Hlo Hhi r. unfold r.
  destruct (pick_segment env (seed_segNum env p) (finalize_current p h start))
    as [[[p1 h1] c]|] eqn:Hpick.
  - assert (Hp1 : Pub.segNum p1 = s /\ Pub.Precreate p1 = Pub.Precreate p
                  /\ exists pre : list Z,
                       Seg.num <$> h1 = (Seg.num <$> h) ++ pre
                       /\ (pre = [] \/ pre = [s])).
    { pose proof (pick_segment_Some _ _ _ _ _ _ Hpick) as Hp.
      unfold s in *. unfold seed_segNum in *.
      destruct Hp as [(rest & _ & -> & ->)|(_ & _ & _ & -> & ->)];
        (split; [by destruct (Pub.segNum p =? 0); destruct p|]);
        (split; [by destruct (Pub.segNum p =? 0); destruct p|]).
      - exists []. rewrite app_nil_r.
        split; [by apply finalize_current_fmap|by left].
      - eexists. rewrite fmap_app, (finalize_current_fmap Seg.num) by done.
        split; [reflexivity|]. right. done. }
    destruct Hp1 as (Hsn & Hpc & pre & Hh1 & Hpre).
    clearbody s.
    unfold newSegment. rewrite Hpick. clear Hpick.
    destruct p1 as [iD bL wd pf pc sg pre1 sn sq dc dq st cur mb mx mh].
    pub_simpl. rewrite trimSegments_eq. pub_simpl.
    match goal with
    | |- context [precreate env ?f ?q ?hh] =>
        destruct (precreate_ids env f q hh) as (k & Hk & Hn & Hs & Hpcq);
        [pub_simpl; unfold incr64, add64; rewrite wrap64_id;
           unfold min_int64, max_int64 in *; lia
        |pub_simpl; unfold incr64, add64; rewrite wrap64_id;
           unfold min_int64, max_int64 in *; lia
        |];
        destruct (precreate env f q hh) as [[p' h'] err]
    end.
    cbn [fst snd] in *. pub_simpl.
    assert (Hi : incr64 sn = sn + 1).
    { unfold incr64, add64. apply wrap64_id.
      unfold min_int64, max_int64 in *. lia. }
    rewrite Hi in *.
    rewrite release_all_fmap, fmap_alter_inv, Hh1 in Hn by done.
    subst sn.
    exists (pre ++ ((fun i : nat => s + 1 + Z.of_nat i) <$> seq 0 k)).
    split; [by rewrite Hn, app_assoc|].
    split; [|split; [|split]].
    + apply increasing_app.
      * destruct Hpre as [-> | ->]; intros i j a b Hij Ha Hb.
        -- done.
        -- apply lookup_lt_Some in Hb. simpl in Hb. lia.
      * apply increasing_consecutive.
      * intros a b Ha Hb%elem_of_consecutive.
        destruct Hpre as [-> | ->].
        -- by apply elem_of_nil in Ha.
        -- apply list_elem_of_singleton in Ha. lia.
    + apply Forall_app. split.
      * destruct Hpre as [-> | ->]; [done|].
        apply Forall_cons. split; [lia|done].
      * apply Forall_forall. intros x Hx%elem_of_consecutive. lia.
    + lia.
    + congruence.
  - rewrite (newSegment_not_picked _ _ _ _ Hpick). pub_simpl.
    exists []. rewrite app_nil_r.
    split; [by apply finalize_current_fmap|].
    split; [intros i j a b _ Ha; done|].
    split; [done|].
    assert (Hs' : Pub.segNum (Pub.with_current None (seed_segNum env p)) = s)
      by (unfold s; by destruct (seed_segNum env p)).
    assert (Hp' : Pub.Precreate (Pub.with_current None (seed_segNum env p))
                  = Pub.Precreate p).
    { unfold seed_segNum. destruct (Pub.segNum p =? 0); by destruct p. }
    pub_simpl. rewrite Hs', Hp'. split; [lia|done].
Qed.

Lemma increasing_NoDup (l : list Z) : increasing l -> NoDup l.
Proof.
  intros Hl. apply NoDup_alt. intros i j x Hi Hj.
  destruct (Nat.lt_total i j) as [Hij|[Hij|Hij]]; [|done|].
  - pose proof (Hl i j x x Hij Hi Hj). lia.
  - pose proof (Hl j i x x Hij Hj Hi). lia.
Qed.

(** One call keeps the ids in order, and the counter within the bound the
    calls so far allow. *)
Lemma step_ids (N c : Z) (w : world) (o : op) :
  clock_within N o -> 0 <= c ->
  Z.max 0 N + (c + 1 + Z.max 0 (Pub.Precreate (w_pub w))) <= max_int64 ->
  ids_ok w -> Pub.segNum (w_pub w) <= Z.max 0 N + c ->
  ids_ok (step w o)
  /\ Pub.segNum (w_pub (step w o))
     <= Z.max 0 N + (c + 1 + Z.max 0 (Pub.Precreate (w_pub w)))
  /\ Pub.Precreate (w_pub (step w o)) = Pub.Precreate (w_pub w).
Proof.
  intros Ho Hc0 Hmax (H0 & Hall & Hinc) Hc. unfold ids_ok.
  destruct o as [res|env pkt| |]; cbn [step].
  - unfold WriteHeader. destruct res; pub_simpl;
      (split; [done|split; [lia|done]]).
  - simpl in Ho.
    destruct (WritePacket_fields env (w_pub w) (w_heap w) pkt)
      as (_ & _ & Epc & _ & _ & Esn & _).
    pose proof (WritePacket_heap_fmap Seg.num env (w_pub w) (w_heap w) pkt
                  (fun _ _ => eq_refl)) as Eh.
    pub_simpl. rewrite Eh, Esn, Epc. clear Eh Esn Epc.
    destruct (IsKeyFrame pkt); [|pub_simpl; split; [done|split; [lia|done]]].
    assert (Hs : 0 < Pub.segNum (seed_segNum env (w_pub w)) <= Z.max 0 N + c
                 /\ Pub.segNum (w_pub w) <= Pub.segNum (seed_segNum env (w_pub w))).
    { unfold seed_segNum. destruct (Z.eqb_spec (Pub.segNum (w_pub w)) 0) as [E|E].
      - destruct (w_pub w); pub_simpl. lia.
      - lia. }
    destruct (newSegment_ids env (w_pub w) (w_heap w) (Time pkt))
      as (news & -> & Hnews & Hrange & Hsn & ->);
      [unfold min_int64; lia|lia|].
    split; [|split; [lia|done]].
    split; [lia|]. split.
    + apply Forall_app. split.
      * eapply Forall_impl; [exact Hall|]. intros x Hx. simpl in Hx. lia.
      * eapply Forall_impl; [exact Hrange|]. intros x Hx. simpl in Hx. lia.
    + apply increasing_app; [done|done|].
      intros a b Ha Hb.
      rewrite Forall_forall in Hall, Hrange.
      specialize (Hall a Ha). specialize (Hrange b Hb). simpl in *. lia.
  - unfold Discontinuity. pub_simpl. split; [done|split; [lia|done]].
  - unfold Close. pub_simpl.
    rewrite !release_all_fmap by done.
    split; [done|split; [lia|done]].
Qed.

(** X17. As long as the clock reads positive times and the counter stays
    within int64, the ids of the segments increase strictly in the order
    of their creation, by the precreate loop or on activation: no two
    segments of a run share an id, every id is positive and below the
    counter. *)
Theorem X17_segment_ids_increase
    (iD bL : Z) (wd : string) (pf : bool) (pc : Z) (ops : list op) (N : Z) :
  Forall (clock_within N) ops ->
  Z.max 0 N + Z.of_nat (length ops) * (1 + Z.max 0 pc) <= max_int64 ->
  let w := run ops (init_world (new_Publisher iD bL wd pf pc)) in
  increasing (Seg.num <$> w_heap w)
  /\ NoDup (Seg.num <$> w_heap w)
  /\ Forall (fun x => 0 < x < Pub.segNum (w_pub w)) (Seg.num <$> w_heap w).
Proof.
  intros Hops Hmax w.
  assert (Hinv : ids_ok w
                 /\ Pub.segNum (w_pub w)
                    <= Z.max 0 N + Z.of_nat (length ops) * (1 + Z.max 0 pc)
                 /\ Pub.Precreate (w_pub w) = pc).
  { unfold w. clear w. induction ops as [|o ops IH] using rev_ind.
    - simpl. unfold ids_ok. simpl. split; [|lia].
      split; [done|]. split; [done|]. intros i j a b _ Ha. done.
    - apply Forall_app in Hops as [Hops Ho]. inversion Ho as [|? ? Ho' _]; subst.
      rewrite length_app in *. cbn [length] in *.
      destruct IH as (Hok & Hsn & Hpc); [done|nia|].
      rewrite run_snoc.
      destruct (step_ids N (Z.of_nat (length ops) * (1 + Z.max 0 pc))
                  (run ops (init_world (new_Publisher iD bL wd pf pc))) o Ho')
        as (Hok' & Hsn' & Hpc'); [nia|rewrite Hpc; nia|done|done|].
      split; [done|]. rewrite Hpc in *. split; [nia|done]. }
  destruct Hinv as ((_ & Hall & Hinc) & _ & _).
  split; [done|]. split; [by apply increasing_NoDup|done].
Qed.

End Ids.

Lemma X17_ids_witness :
  increasing (Seg.num <$> w_heap world_ten)
  /\ NoDup (Seg.num <$> w_heap world_ten)
  /\ Forall (fun x => 0 < x < Pub.segNum (w_pub world_ten))
       (Seg.num <$> w_heap world_ten).
Proof.
  refine (@X17_segment_ids_increase sample_externals 0 (2 * Second) ""%string
            false 0 (OpWriteHeader (Some "HDR"%string) :: keyframes 10) 1000 _ _).
  - apply Forall_cons. split; [exact I|].
    unfold keyframes. apply Forall_fmap, Forall_forall. intros i _.
    simpl. lia.
  - vm_compute. congruence.
Defined.
